(** * sretoolbox.utils.cache: instance-scoped memoisation decorators

    A shallow embedding of [src/sretoolbox/utils/cache.py] and the
    properties of its six decorators and three raw accessors.

    The module keeps one process-wide registry [_CACHES] that maps a class
    instance to a dict of cached values.  Every function of the module first
    calls [_lazy_init] to obtain the dict of the instance and then reads or
    mutates that dict in place.  The embedding threads the registry, the
    user-visible state of the wrapped methods and a ghost log of events
    through a state-and-exception monad. *)

From stdpp Require Import base option countable gmap strings list.

(** ** Python values *)

(** Cached values, cache keys and call arguments are Python objects.  The
    fragment below is enough for the module: [None], integers and strings
    are all hashable, and on this fragment Python's [==] coincides with
    structural equality. *)
Inductive value : Type :=
  | VNone
  | VInt (z : Z)
  | VStr (s : string).

#[global] Instance value_eq_dec : EqDecision value.
Proof. solve_decision. Defined.

Definition value_encode (v : value) : unit + (Z + string) :=
  match v with
  | VNone => inl tt
  | VInt z => inr (inl z)
  | VStr s => inr (inr s)
  end.

Definition value_decode (x : unit + (Z + string)) : value :=
  match x with
  | inl _ => VNone
  | inr (inl z) => VInt z
  | inr (inr s) => VStr s
  end.

#[global] Instance value_countable : Countable value.
Proof.
  apply (inj_countable' value_encode value_decode).
  by intros [].
Defined.

(** Python truthiness ([bool(v)]): [None], [0] and the empty string are
    falsy.  The module never consults it; it is here to state that. *)
Definition truthy (v : value) : bool :=
  match v with
  | VNone => false
  | VInt z => negb (Z.eqb z 0)
  | VStr s => negb (String.eqb s EmptyString)
  end.

(** The positional and keyword arguments of a call, without [self]. *)
Record args : Type := Args {
  positional : list value;
  keywords : list (string * value)
}.

(** A class instance.  [ident] is the object's identity ([id(obj)]);
    [eq_value] tells how the object hashes and compares: [None] for a class
    that keeps [object.__eq__] and [object.__hash__] (identity), [Some v]
    for a class that defines [__eq__] and [__hash__] from a value [v] (a
    dataclass compared by its fields, say). *)
Record instance : Type := Instance {
  ident : positive;
  eq_value : option value
}.

(** [_CACHES] is a [weakref.WeakKeyDictionary]: it stores [weakref.ref(obj)]
    as dict key, and a weak reference to a live object hashes and compares
    like the object itself.  The registry slot of an instance is therefore
    decided by the instance's own [__hash__]/[__eq__]. *)
Abbreviation slot := (positive + value)%type.

Definition reg_key (o : instance) : slot :=
  match eq_value o with
  | None => inl (ident o)
  | Some v => inr v
  end.

(** Python's [is]. *)
Definition same_object (a b : instance) : Prop := ident a = ident b.

(** Python's [==] (together with equal hashes). *)
Definition py_equal (a b : instance) : Prop := reg_key a = reg_key b.

(** ** Events (ghost state) *)

(** The log records, in program order, every evaluation of user code and
    every mutation of the registry or of a cache dict. *)
Inductive event : Type :=
  | EvKey (a : args)                       (* key = key_func(args, kwargs) *)
  | EvCall (self : instance) (a : args)    (* func(self, args, kwargs) *)
  | EvInit (c : slot)                      (* _CACHES[owner_ref] = {} *)
  | EvSet (c : slot) (k v : value)         (* cache[key] = value *)
  | EvDel (c : slot) (k : value).          (* del cache[key], key present *)

(** The invocations of wrapped methods found in a log, oldest first. *)
Fixpoint invocations (l : list event) : list (instance * args) :=
  match l with
  | [] => []
  | EvCall o a :: l' => (o, a) :: invocations l'
  | _ :: l' => invocations l'
  end.

(** The argument sets [key_func] was evaluated on, oldest first. *)
Fixpoint key_evals (l : list event) : list args :=
  match l with
  | [] => []
  | EvKey a :: l' => a :: key_evals l'
  | _ :: l' => key_evals l'
  end.

Section Cache.

(** [U] is the state the wrapped methods and key functions live in (the
    attributes of the instances, globals, ...); [E] is the type of the
    exceptions they raise.  User code works on [U]; it does not call back
    into this module. *)
Context {U E : Type}.

(** ** State, exceptions, monad *)

Record state : Type := State {
  user : U;
  caches : gmap slot (gmap value value);   (* _CACHES *)
  log : list event
}.

(** [KeyError] is what a dict raises on a missing key; [UserError] is an
    exception raised by a wrapped method or by a key function.  The module
    runs no user code inside a [try], so an exception of user code is never
    taken for the dict's [KeyError], whatever its class.  An exception is
    identified by the value raised; tracebacks and exception chaining are
    not modelled. *)
Inductive exn : Type :=
  | KeyError (k : value)
  | UserError (e : E).

Inductive outcome (A : Type) : Type :=
  | Ok (a : A)
  | Raise (x : exn).
Arguments Ok {A} a.
Arguments Raise {A} x.

Definition M (A : Type) : Type := state -> outcome A * state.

Definition ret {A} (a : A) : M A := fun s => (Ok a, s).

Definition bind {A B} (m : M A) (k : A -> M B) : M B :=
  fun s =>
    match m s with
    | (Ok a, s') => k a s'
    | (Raise x, s') => (Raise x, s')
    end.

(** [try: m  except KeyError: h] *)
Definition try_except_KeyError {A} (m h : M A) : M A :=
  fun s =>
    match m s with
    | (Raise (KeyError _), s') => h s'
    | r => r
    end.

Definition emit (e : event) (s : state) : state :=
  State (user s) (caches s) (log s ++ [e]).

Definition set_user (u : U) (s : state) : state :=
  State u (caches s) (log s).

Definition set_caches (r : gmap slot (gmap value value)) (s : state) : state :=
  State (user s) r (log s).

(** ** User code *)

(** A wrapped method, called as [func(self, ...)] with the call's positional
    and keyword arguments: it may change the user state, and it returns a
    value or raises. *)
Definition method : Type := instance -> args -> U -> (value + E) * U.

(** A key function, called on the positional and keyword arguments of the
    call: it does not receive [self]. *)
Definition key_function : Type := args -> U -> (value + E) * U.

Definition lift_user (r : (value + E) * U) (s : state) : outcome value * state :=
  match r with
  | (inl v, u) => (Ok v, set_user u s)
  | (inr e, u) => (Raise (UserError e), set_user u s)
  end.

(** [func] applied to [self] and the call arguments *)
Definition call_func (func : method) (self : instance) (a : args) : M value :=
  fun s => lift_user (func self a (user s)) (emit (EvCall self a) s).

(** [key_func] applied to [args] and [kwargs] *)
Definition call_key_func (key_func : key_function) (a : args) : M value :=
  fun s => lift_user (key_func a (user s)) (emit (EvKey a) s).

(** ** Dict operations on a cache

    [_lazy_init] returns the dict object held by [_CACHES], not a copy: a
    later [cache[key] = value] is seen through the registry.  A cache is
    therefore handled by reference, the reference being its registry
    slot. *)

Definition deref (s : state) (c : slot) : gmap value value :=
  default ∅ (caches s !! c).

(** [cache[key]] *)
Definition dict_getitem (c : slot) (key : value) : M value :=
  fun s =>
    match deref s c !! key with
    | Some v => (Ok v, s)
    | None => (Raise (KeyError key), s)
    end.

(** The in-place update of the dict behind [c]. *)
Definition store_item (c : slot) (key v : value) (s : state) : state :=
  emit (EvSet c key v)
    (set_caches (<[c := <[key := v]> (deref s c)]> (caches s)) s).

Definition drop_item (c : slot) (key : value) (s : state) : state :=
  emit (EvDel c key)
    (set_caches (<[c := delete key (deref s c)]> (caches s)) s).

(** [cache[key] = value] *)
Definition dict_setitem (c : slot) (key v : value) : M unit :=
  fun s => (Ok tt, store_item c key v s).

(** [del cache[key]]: a missing key raises [KeyError]. *)
Definition dict_delitem (c : slot) (key : value) : M unit :=
  fun s =>
    match deref s c !! key with
    | Some _ => (Ok tt, drop_item c key s)
    | None => (Raise (KeyError key), s)
    end.

(** ** The module's functions *)

Notation "x <- m ;; k" := (bind m (fun x => k))
  (at level 100, m at next level, right associativity, only parsing).
Notation "m ;;; k" := (bind m (fun _ => k))
  (at level 100, right associativity, only parsing).

(** [_lazy_init(owner_ref)]: the dict of [owner_ref], created empty and
    registered when [owner_ref] is not yet a key of [_CACHES]. *)
Definition _lazy_init (owner_ref : instance) : M slot :=
  fun s =>
    match caches s !! reg_key owner_ref with
    | Some _ => (Ok (reg_key owner_ref), s)
    | None =>
        (Ok (reg_key owner_ref),
         emit (EvInit (reg_key owner_ref))
           (set_caches (<[reg_key owner_ref := ∅]> (caches s)) s))
    end.

(** [raw_set(owner_ref, key, value)] *)
Definition raw_set (owner_ref : instance) (key v : value) : M unit :=
  cache <- _lazy_init owner_ref ;;
  dict_setitem cache key v.

(** [raw_get(owner_ref, key)] *)
Definition raw_get (owner_ref : instance) (key : value) : M value :=
  cache <- _lazy_init owner_ref ;;
  dict_getitem cache key.

(** [raw_remove(owner_ref, key)] *)
Definition raw_remove (owner_ref : instance) (key : value) : M unit :=
  cache <- _lazy_init owner_ref ;;
  try_except_KeyError (dict_delitem cache key) (ret tt).

(** The body of the method returned by [static(key)(func)].  The source
    first binds [value = None]; both branches of the [try] rebind it, so the
    binding is not observable.  [func] runs in the [except] clause, outside
    the guarded lookup: whatever it raises leaves the wrapper. *)
Definition with_cache_get (key : value) (func : method)
    (self : instance) (a : args) : M value :=
  cache <- _lazy_init self ;;
  try_except_KeyError
    (dict_getitem cache key)
    (v <- call_func func self a ;;
     dict_setitem cache key v ;;;
     ret v).

Definition static (key : value) (func : method) : instance -> args -> M value :=
  with_cache_get key func.

(** The body of the method returned by [computed(key_func)(func)]. *)
Definition with_cache_computed (key_func : key_function) (func : method)
    (self : instance) (a : args) : M value :=
  key <- call_key_func key_func a ;;
  cache <- _lazy_init self ;;
  try_except_KeyError
    (dict_getitem cache key)
    (v <- call_func func self a ;;
     dict_setitem cache key v ;;;
     ret v).

Definition computed (key_func : key_function) (func : method)
    : instance -> args -> M value :=
  with_cache_computed key_func func.

(** The body of the method returned by [remove_static(key)(func)]. *)
Definition with_cache_remove_static (key : value) (func : method)
    (self : instance) (a : args) : M value :=
  raw_remove self key ;;;
  call_func func self a.

Definition remove_static (key : value) (func : method)
    : instance -> args -> M value :=
  with_cache_remove_static key func.

(** The body of the method returned by [remove_computed(key_func)(func)]. *)
Definition with_cache_remove_computed (key_func : key_function) (func : method)
    (self : instance) (a : args) : M value :=
  key <- call_key_func key_func a ;;
  raw_remove self key ;;;
  call_func func self a.

Definition remove_computed (key_func : key_function) (func : method)
    : instance -> args -> M value :=
  with_cache_remove_computed key_func func.

(** The body of the method returned by [replace_static(key)(func)]. *)
Definition with_cache_replace_static (key : value) (func : method)
    (self : instance) (a : args) : M value :=
  v <- call_func func self a ;;
  raw_set self key v ;;;
  ret v.

Definition replace_static (key : value) (func : method)
    : instance -> args -> M value :=
  with_cache_replace_static key func.

(** The body of the method returned by [replace_computed(key_func)(func)]. *)
Definition with_cache_replace_computed (key_func : key_function) (func : method)
    (self : instance) (a : args) : M value :=
  key <- call_key_func key_func a ;;
  v <- call_func func self a ;;
  raw_set self key v ;;;
  ret v.

Definition replace_computed (key_func : key_function) (func : method)
    : instance -> args -> M value :=
  with_cache_replace_computed key_func func.

(** ** Observations *)

(** What the caller of a bare user function sees: its value, or its
    exception. *)
Definition user_outcome (r : (value + E) * U) : outcome value :=
  match fst r with
  | inl v => Ok v
  | inr e => Raise (UserError e)
  end.



(** What the cache of [o] holds under [key]; [None] when the key is absent
    (or when [o] has no cache yet). *)
Definition cached (s : state) (o : instance) (key : value) : option value :=
  deref s (reg_key o) !! key.

(** [o in _CACHES] *)
Definition registered (s : state) (o : instance) : bool :=
  bool_decide (is_Some (caches s !! reg_key o)).

(** The state [_lazy_init] leaves behind. *)
Definition init_state (o : instance) (s : state) : state :=
  snd (_lazy_init o s).

(** The events [_lazy_init] appends: one registration at the first access
    of a slot, nothing afterwards. *)
Definition init_events (o : instance) (s : state) : list event :=
  if registered s o then [] else [EvInit (reg_key o)].

(** The events a run appended to the log. *)
Definition new_events (s s' : state) : list event :=
  drop (length (log s)) (log s').

(** Calling a wrapped method once per element of [calls], in order; the
    outcomes are collected, a raising call does not stop the sequence (the
    caller catches it). *)
Fixpoint call_each (m : instance -> args -> M value) (self : instance)
    (calls : list args) (s : state) : list (outcome value) * state :=
  match calls with
  | [] => ([], s)
  | a :: rest =>
      let '(r, s1) := m self a s in
      let '(rs, s2) := call_each m self rest s1 in
      (r :: rs, s2)
  end.

End Cache.

Arguments state : clear implicits.
Arguments exn : clear implicits.
Arguments outcome : clear implicits.
Arguments M : clear implicits.
Arguments method : clear implicits.
Arguments key_function : clear implicits.
Arguments Ok {E A} a.
Arguments Raise {E A} x.
Arguments KeyError {E} k.
Arguments UserError {E} e.

(** * Sample programs

    Concrete instances, methods and key functions on which the theorems
    below are exercised.  The user state is a counter of real invocations,
    exceptions are strings. *)

(** The state before the module has been used. *)
Definition fresh {U} (u : U) : state U := State u ∅ [].

Definition obj : instance := Instance 1 None.
Definition no_args : args := Args [] [].
Definition args_of (v : value) : args := Args [v] [].

(** Returns 1, then 2, ... on successive real invocations. *)
Definition counter : method nat string :=
  fun _ _ n => (inl (VInt (Z.of_nat (S n))), S n).

(** Raises on its first real invocation and returns 2, 3, ... afterwards. *)
Definition flaky : method nat string :=
  fun _ _ n =>
    match n with
    | O => (inr "boom"%string, 1)
    | S _ => (inl (VInt (Z.of_nat (S n))), S n)
    end.

(** Always raises. *)
Definition failing : method nat string :=
  fun _ _ n => (inr "boom"%string, S n).

(** Returns [None]. *)
Definition returns_none : method nat string :=
  fun _ _ n => (inl VNone, S n).

(** The key is the first positional argument; a call without positional
    arguments is an error of the key function. *)
Definition first_arg : key_function nat string :=
  fun a n =>
    match positional a with
    | v :: _ => (inl v, n)
    | [] => (inr "no argument"%string, n)
    end.

(** Two distinct objects of a class that compares and hashes by value, with
    equal values. *)
Definition point_a : instance := Instance 2 (Some (VInt 5)).
Definition point_b : instance := Instance 3 (Some (VInt 5)).

(** A second object of a class with the default equality. *)
Definition other_obj : instance := Instance 4 None.

(** A cache of [obj] that holds stale entries under ["x"] and under 7. *)
Definition stale : state nat :=
  snd (raw_set (E:=string) obj (VInt 7) (VStr "old")
         (snd (raw_set (E:=string) obj (VStr "x") (VStr "old") (fresh 0%nat)))).

(** * Properties *)

Section Properties.

Context {U E : Type}.

Implicit Types (s : state U) (o self : instance) (c : slot)
  (key k v : value) (a : args) (func g : method U E)
  (key_func : key_function U E).

(** [init_state] mentions [E] only through the type of [_lazy_init]. *)
Local Abbreviation init_state := (@init_state U E) (only parsing).

(** ** Logs *)

Lemma invocations_app (l1 l2 : list event) :
  invocations (l1 ++ l2) = invocations l1 ++ invocations l2.
Proof.
  induction l1 as [|e l1 IH]; [done|].
  destruct e; simpl; by rewrite ?IH.
Qed.

Lemma key_evals_app (l1 l2 : list event) :
  key_evals (l1 ++ l2) = key_evals l1 ++ key_evals l2.
Proof.
  induction l1 as [|e l1 IH]; [done|].
  destruct e; simpl; by rewrite ?IH.
Qed.

Lemma new_events_app s s' (evs : list event) :
  log s' = log s ++ evs -> new_events s s' = evs.
Proof.
  unfold new_events. intros ->. by rewrite drop_app_length.
Qed.

(** ** The registry and [_lazy_init] *)

Lemma lazy_init_run o s :
  _lazy_init (E:=E) o s = (Ok (reg_key o), init_state o s).
Proof. unfold init_state, _lazy_init. by destruct (caches s !! reg_key o). Qed.

Lemma init_state_user o s : user (init_state o s) = user s.
Proof. unfold init_state, _lazy_init. by destruct (caches s !! reg_key o). Qed.

Lemma init_state_log o s : log (init_state o s) = log s ++ init_events o s.
Proof.
  unfold init_state, _lazy_init, init_events, registered.
  destruct (caches s !! reg_key o) eqn:Hc; simpl; [by rewrite app_nil_r | done].
Qed.

Lemma init_state_deref o s c : deref (init_state o s) c = deref s c.
Proof.
  unfold init_state, _lazy_init, deref.
  destruct (caches s !! reg_key o) eqn:Hc; simpl; [done|].
  destruct (decide (reg_key o = c)) as [<-|Hne].
  - by rewrite lookup_insert_eq, Hc.
  - by rewrite lookup_insert_ne.
Qed.

Lemma init_state_cached o s o' k : cached (init_state o s) o' k = cached s o' k.
Proof. unfold cached. by rewrite init_state_deref. Qed.

Lemma init_state_registered o s : registered (init_state o s) o = true.
Proof.
  unfold init_state, _lazy_init, registered.
  destruct (caches s !! reg_key o) eqn:Hc; simpl; apply bool_decide_eq_true_2.
  - by eexists.
  - rewrite lookup_insert_eq. by eexists.
Qed.

Lemma init_state_registered_other o s o' :
  reg_key o' <> reg_key o ->
  registered (init_state o s) o' = registered s o'.
Proof.
  intros Hne. unfold init_state, _lazy_init, registered.
  destruct (caches s !! reg_key o) eqn:Hc; simpl; [done|].
  by rewrite lookup_insert_ne.
Qed.

Lemma init_state_idle o s : registered s o = true -> init_state o s = s.
Proof.
  unfold registered, init_state, _lazy_init. intros [d Hd]%bool_decide_eq_true.
  by rewrite Hd.
Qed.

Lemma cached_registered s o k v : cached s o k = Some v -> registered s o = true.
Proof.
  unfold cached, deref, registered. intros H. apply bool_decide_eq_true_2.
  destruct (caches s !! reg_key o); [by eexists | done].
Qed.

(** The first access of an instance creates an empty cache. *)
Lemma lazy_init_fresh o s :
  registered s o = false ->
  caches (init_state o s) !! reg_key o = Some ∅.
Proof.
  unfold registered, init_state, _lazy_init. intros H%bool_decide_eq_false.
  destruct (caches s !! reg_key o) eqn:Hc; simpl.
  - exfalso. apply H. by eexists.
  - by rewrite lookup_insert_eq.
Qed.

(** ** Dict updates *)

Lemma deref_store_item c k v s c' :
  deref (store_item c k v s) c' =
  if decide (c' = c) then <[k := v]> (deref s c) else deref s c'.
Proof.
  unfold store_item, deref; simpl. case_decide as Hc.
  - subst. by rewrite lookup_insert_eq.
  - by rewrite lookup_insert_ne.
Qed.

Lemma deref_drop_item c k s c' :
  deref (drop_item c k s) c' =
  if decide (c' = c) then delete k (deref s c) else deref s c'.
Proof.
  unfold drop_item, deref; simpl. case_decide as Hc.
  - subst. by rewrite lookup_insert_eq.
  - by rewrite lookup_insert_ne.
Qed.

Lemma cached_store_item c k v s o k' :
  cached (store_item c k v s) o k' =
  if decide (reg_key o = c /\ k' = k) then Some v else cached s o k'.
Proof.
  unfold cached. rewrite deref_store_item.
  destruct (decide (reg_key o = c)) as [->|Hc].
  - destruct (decide (k' = k)) as [->|Hk].
    + rewrite decide_True by done. apply lookup_insert_eq.
    + rewrite decide_False by tauto. by rewrite lookup_insert_ne.
  - by rewrite decide_False by tauto.
Qed.

Lemma cached_drop_item c k s o k' :
  cached (drop_item c k s) o k' =
  if decide (reg_key o = c /\ k' = k) then None else cached s o k'.
Proof.
  unfold cached. rewrite deref_drop_item.
  destruct (decide (reg_key o = c)) as [->|Hc].
  - destruct (decide (k' = k)) as [->|Hk].
    + rewrite decide_True by done. apply lookup_delete_eq.
    + rewrite decide_False by tauto. by rewrite lookup_delete_ne.
  - by rewrite decide_False by tauto.
Qed.

Lemma cached_store_item_same o k v s :
  cached (store_item (reg_key o) k v s) o k = Some v.
Proof. by rewrite cached_store_item, decide_True. Qed.

Lemma cached_store_item_other c k v s o k' :
  reg_key o <> c \/ k' <> k ->
  cached (store_item c k v s) o k' = cached s o k'.
Proof. intros H. rewrite cached_store_item, decide_False; tauto. Qed.

Lemma cached_drop_item_same o k s :
  cached (drop_item (reg_key o) k s) o k = None.
Proof. by rewrite cached_drop_item, decide_True. Qed.

Lemma cached_drop_item_other c k s o k' :
  reg_key o <> c \/ k' <> k ->
  cached (drop_item c k s) o k' = cached s o k'.
Proof. intros H. rewrite cached_drop_item, decide_False; tauto. Qed.

(** Entering user code changes the user state and the log, not the
    registry. *)
Lemma cached_user_event (u : U) (e : event) s o k :
  cached (set_user u (emit e s)) o k = cached s o k.
Proof. done. Qed.

(** ** What each function of the module computes *)

Lemma raw_set_run o k v s :
  raw_set (E:=E) o k v s = (Ok tt, store_item (reg_key o) k v (init_state o s)).
Proof. unfold raw_set, bind. by rewrite lazy_init_run. Qed.

Lemma raw_get_run o k s :
  raw_get (E:=E) o k s =
  (match cached s o k with Some v => Ok v | None => Raise (KeyError k) end,
   init_state o s).
Proof.
  unfold raw_get, bind, dict_getitem. rewrite lazy_init_run.
  fold (cached (init_state o s) o k). rewrite init_state_cached.
  by destruct (cached s o k).
Qed.

Lemma raw_remove_run o k s :
  raw_remove (E:=E) o k s =
  (Ok tt,
   match cached s o k with
   | Some _ => drop_item (reg_key o) k (init_state o s)
   | None => init_state o s
   end).
Proof.
  unfold raw_remove, bind, try_except_KeyError, dict_delitem.
  rewrite lazy_init_run.
  fold (cached (init_state o s) o k). rewrite init_state_cached.
  by destruct (cached s o k).
Qed.

(** The state in which the wrapped method has just been entered. *)
Lemma call_func_run func self a s :
  call_func func self a s =
  match func self a (user s) with
  | (inl v, u) => (Ok v, set_user u (emit (EvCall self a) s))
  | (inr e, u) => (Raise (UserError e), set_user u (emit (EvCall self a) s))
  end.
Proof. unfold call_func, lift_user. by destruct (func self a (user s)) as [[?|?] ?]. Qed.

Lemma call_key_func_run key_func a s :
  call_key_func key_func a s =
  match key_func a (user s) with
  | (inl k, u) => (Ok k, set_user u (emit (EvKey a) s))
  | (inr e, u) => (Raise (UserError e), set_user u (emit (EvKey a) s))
  end.
Proof.
  unfold call_key_func, lift_user. by destruct (key_func a (user s)) as [[?|?] ?].
Qed.

Lemma with_cache_get_run key func self a s :
  with_cache_get key func self a s =
  match cached s self key with
  | Some v => (Ok v, init_state self s)
  | None =>
      match func self a (user s) with
      | (inl v, u) =>
          (Ok v, store_item (reg_key self) key v
                   (set_user u (emit (EvCall self a) (init_state self s))))
      | (inr e, u) =>
          (Raise (UserError e),
           set_user u (emit (EvCall self a) (init_state self s)))
      end
  end.
Proof.
  unfold with_cache_get, bind, try_except_KeyError, dict_getitem.
  rewrite lazy_init_run.
  fold (cached (init_state self s) self key). rewrite init_state_cached.
  destruct (cached s self key); [done|].
  rewrite call_func_run, init_state_user.
  by destruct (func self a (user s)) as [[?|?] ?].
Qed.

Lemma static_hit key func self a s v :
  cached s self key = Some v -> static key func self a s = (Ok v, s).
Proof.
  intros Hc. unfold static. rewrite with_cache_get_run, Hc.
  by rewrite (init_state_idle _ _ (cached_registered _ _ _ _ Hc)).
Qed.

Lemma static_miss_log key func self a s :
  cached s self key = None ->
  invocations (log (snd (static key func self a s))) =
  invocations (log s) ++ [(self, a)].
Proof.
  intros Hc. unfold static. rewrite with_cache_get_run, Hc.
  destruct (func self a (user s)) as [[v|e] u]; simpl;
    rewrite init_state_log, !invocations_app;
    unfold init_events; destruct (registered s self); simpl;
    by rewrite ?app_nil_r.
Qed.

Lemma static_miss_ok key func self a s v u :
  cached s self key = None ->
  func self a (user s) = (inl v, u) ->
  fst (static key func self a s) = Ok v /\
  cached (snd (static key func self a s)) self key = Some v /\
  user (snd (static key func self a s)) = u.
Proof.
  intros Hc Hf. unfold static. rewrite with_cache_get_run, Hc, Hf. simpl.
  split; [done|]. split; [apply cached_store_item_same | done].
Qed.

Lemma static_miss_raise key func self a s e u :
  cached s self key = None ->
  func self a (user s) = (inr e, u) ->
  static key func self a s =
  (Raise (UserError e), set_user u (emit (EvCall self a) (init_state self s))).
Proof.
  intros Hc Hf. unfold static. by rewrite with_cache_get_run, Hc, Hf.
Qed.

(** ** C1: static-key memoised lookup *)

(** C1.  A call of the method made by [static key] returns the stored value
    and leaves the whole state alone (so [func] is not invoked) when [key]
    is in the cache of [self]; when [key] is absent it invokes [func] once,
    on [self] and the call's own arguments, and what [func] returns is both
    stored under [key] in the cache of [self] and returned. *)
Theorem static_lookup key func self a s :
  (forall v, cached s self key = Some v ->
     static key func self a s = (Ok v, s))
  /\ (cached s self key = None ->
      invocations (log (snd (static key func self a s))) =
        invocations (log s) ++ [(self, a)]
      /\ fst (static key func self a s) = user_outcome (func self a (user s))
      /\ forall v u, func self a (user s) = (inl v, u) ->
           fst (static key func self a s) = Ok v /\
           cached (snd (static key func self a s)) self key = Some v).
Proof.
  split.
  - intros v Hc. by apply static_hit.
  - intros Hc. split; [by apply static_miss_log|]. split.
    + unfold static, user_outcome. rewrite with_cache_get_run, Hc.
      by destruct (func self a (user s)) as [[v|e] u].
    + intros v u Hf.
      destruct (static_miss_ok key func self a s v u Hc Hf) as (H1 & H2 & _).
      done.
Qed.

(** ** C2: repeated calls of a static-key memoised method *)

Lemma call_each_hits key func self (calls : list args) s v :
  cached s self key = Some v ->
  call_each (static key func) self calls s =
  (replicate (length calls) (Ok v), s).
Proof.
  intros Hc. induction calls as [|a rest IH]; [done|].
  simpl. by rewrite (static_hit _ _ _ _ _ _ Hc), IH.
Qed.

(** C2, as amended.  Let [key] be absent from the cache of [self] and let
    the first real invocation of [func] return a value [v].  Then N >= 1
    calls of the memoised method, with any arguments, all yield what the
    first call alone yields, namely [v], and across those calls [func] is
    invoked exactly once, by the first call. *)
Theorem static_idempotent key func self a0 (rest : list args) s v u :
  cached s self key = None ->
  func self a0 (user s) = (inl v, u) ->
  Forall (fun r => r = fst (static key func self a0 s))
    (fst (call_each (static key func) self (a0 :: rest) s))
  /\ fst (call_each (static key func) self (a0 :: rest) s) =
       replicate (S (length rest)) (Ok v)
  /\ invocations (log (snd (call_each (static key func) self (a0 :: rest) s))) =
       invocations (log s) ++ [(self, a0)].
Proof.
  intros Hc Hf.
  destruct (static_miss_ok key func self a0 s v u Hc Hf) as (Hr & Hs & _).
  pose proof (static_miss_log key func self a0 s Hc) as Hl.
  simpl. destruct (static key func self a0 s) as [r s1] eqn:Hrun.
  simpl in *. subst r.
  rewrite (call_each_hits key func self rest s1 v Hs). simpl.
  split; [|done].
  constructor; [done|]. by apply Forall_replicate.
Qed.

(** ** C3: computed-key memoised lookup *)

Lemma computed_run key_func func self a s :
  computed key_func func self a s =
  match key_func a (user s) with
  | (inl k, u) => static k func self a (set_user u (emit (EvKey a) s))
  | (inr e, u) => (Raise (UserError e), set_user u (emit (EvKey a) s))
  end.
Proof.
  unfold computed, with_cache_computed, bind. rewrite call_key_func_run.
  by destruct (key_func a (user s)) as [[k|e] u].
Qed.

(** A memoised lookup touches one key of one cache at most. *)
Lemma static_frame key func self a s o k :
  reg_key o <> reg_key self \/ k <> key ->
  cached (snd (static key func self a s)) o k = cached s o k.
Proof.
  intros Hne. unfold static. rewrite with_cache_get_run.
  destruct (cached s self key) as [v|] eqn:Hc; simpl.
  { apply init_state_cached. }
  destruct (func self a (user s)) as [[v|e] u]; simpl.
  - rewrite cached_store_item_other by done.
    rewrite cached_user_event. apply init_state_cached.
  - rewrite cached_user_event. apply init_state_cached.
Qed.



(** One computed-key call that misses: the key function returned [k], which
    is absent from the cache of [self]. *)
Lemma computed_miss_run key_func func self a s k u0 :
  key_func a (user s) = (inl k, u0) ->
  cached s self k = None ->
  fst (computed key_func func self a s) = user_outcome (func self a u0)
  /\ invocations (log (snd (computed key_func func self a s))) =
       invocations (log s) ++ [(self, a)]
  /\ user (snd (computed key_func func self a s)) = snd (func self a u0)
  /\ (forall v u, func self a u0 = (inl v, u) ->
        cached (snd (computed key_func func self a s)) self k = Some v)
  /\ (forall o k', reg_key o <> reg_key self \/ k' <> k ->
        cached (snd (computed key_func func self a s)) o k' = cached s o k').
Proof.
  intros Hk Hc. rewrite computed_run, Hk.
  set (s0 := set_user u0 (emit (EvKey a) s)).
  assert (cached s0 self k = None) as Hc0 by done.
  split; [|split; [|split; [|split]]].
  - unfold static, user_outcome. rewrite with_cache_get_run, Hc0. simpl.
    by destruct (func self a u0) as [[v|e] u].
  - rewrite (static_miss_log k func self a s0 Hc0). subst s0; simpl.
    rewrite invocations_app. simpl. by rewrite app_nil_r.
  - unfold static. rewrite with_cache_get_run, Hc0. simpl.
    by destruct (func self a u0) as [[v|e] u].
  - intros v u Hf.
    by destruct (static_miss_ok k func self a s0 v u Hc0 Hf) as (_ & ? & _).
  - intros o k' Hne. by rewrite static_frame.
Qed.

(** One computed-key call that hits. *)
Lemma computed_hit_run key_func func self a s k u0 v :
  key_func a (user s) = (inl k, u0) ->
  cached s self k = Some v ->
  fst (computed key_func func self a s) = Ok v
  /\ invocations (log (snd (computed key_func func self a s))) =
       invocations (log s).
Proof.
  intros Hk Hc. rewrite computed_run, Hk.
  set (s0 := set_user u0 (emit (EvKey a) s)).
  assert (cached s0 self k = Some v) as Hc0 by done.
  rewrite (static_hit k func self a s0 v Hc0). subst s0; simpl.
  rewrite invocations_app. simpl. by rewrite app_nil_r.
Qed.

(** C3, as amended.  The method made by [computed key_func] evaluates
    [key_func] on the call's arguments without [self] and then is the
    static-key lookup under the key obtained.  Take a run of two calls in
    which the keys derived are absent from the cache of [self] beforehand.
    When the calls are made with [A] and then [B] and the two keys derived
    in the run differ, [func] is invoked twice, once per call, each call
    yields the outcome of its own invocation, and what an invocation
    returns is stored under its own key: nothing is asked of [func].  When
    both calls are made with [A], [key_func] derives the same key both
    times and the first invocation of [func] returns a value, [func] is
    invoked once and both calls yield that value. *)
Theorem computed_lookup key_func func self :
  (forall a s k u, key_func a (user s) = (inl k, u) ->
     computed key_func func self a s =
     static k func self a (set_user u (emit (EvKey a) s)))
  /\ (forall A B kA kB uA uB s,
        key_func A (user s) = (inl kA, uA) ->
        key_func B (user (snd (computed key_func func self A s))) =
          (inl kB, uB) ->
        kA <> kB ->
        cached s self kA = None -> cached s self kB = None ->
        let run := call_each (computed key_func func) self [A; B] s in
        invocations (log (snd run)) = invocations (log s) ++ [(self, A); (self, B)]
        /\ fst run = [user_outcome (func self A uA);
                      user_outcome (func self B uB)]
        /\ (forall vA u, func self A uA = (inl vA, u) ->
              cached (snd run) self kA = Some vA)
        /\ (forall vB u, func self B uB = (inl vB, u) ->
              cached (snd run) self kB = Some vB))
  /\ (forall A kA uA v u1 u2 s,
        key_func A (user s) = (inl kA, uA) ->
        func self A uA = (inl v, u1) ->
        key_func A u1 = (inl kA, u2) ->
        cached s self kA = None ->
        let run := call_each (computed key_func func) self [A; A] s in
        invocations (log (snd run)) = invocations (log s) ++ [(self, A)]
        /\ fst run = [Ok v; Ok v]).
Proof.
  split; [|split].
  - intros a s k u Hk. by rewrite computed_run, Hk.
  - intros A B kA kB uA uB s HA HB Hne HcA HcB. simpl.
    destruct (computed_miss_run key_func func self A s kA uA HA HcA)
      as (HrA & HlA & _ & HsA & HframeA).
    destruct (computed key_func func self A s) as [rA s1]. simpl in *.
    assert (cached s1 self kB = None) as HcB1.
    { rewrite HframeA; [done | by right]. }
    destruct (computed_miss_run key_func func self B s1 kB uB HB HcB1)
      as (HrB & HlB & _ & HsB & HframeB).
    destruct (computed key_func func self B s1) as [rB s2]. simpl in *.
    split; [by rewrite HlB, HlA, <- app_assoc|].
    split; [by subst|]. split; [|done].
    intros vA u Hf. rewrite HframeB; [by eapply HsA | by right].
  - intros A kA uA v u1 u2 s HA Hf HA' Hc. simpl.
    destruct (computed_miss_run key_func func self A s kA uA HA Hc)
      as (HrA & HlA & HuA & HsA & _).
    destruct (computed key_func func self A s) as [rA s1]. simpl in *.
    rewrite Hf in HuA, HrA. simpl in HuA. unfold user_outcome in HrA.
    simpl in HrA. rewrite <- HuA in HA'.
    destruct (computed_hit_run key_func func self A s1 kA u2 v HA'
                (HsA v u1 Hf)) as (HrA' & HlA').
    destruct (computed key_func func self A s1) as [rA' s2]. simpl in *.
    split; [by rewrite HlA', HlA | by subst].
Qed.

(** ** C4: the invalidating wrappers *)

Lemma remove_static_run key func self a s :
  remove_static key func self a s =
  call_func func self a
    match cached s self key with
    | Some _ => drop_item (reg_key self) key (init_state self s)
    | None => init_state self s
    end.
Proof.
  unfold remove_static, with_cache_remove_static, bind.
  by rewrite raw_remove_run.
Qed.

Lemma remove_computed_run key_func func self a s :
  remove_computed key_func func self a s =
  match key_func a (user s) with
  | (inl k, u) => remove_static k func self a (set_user u (emit (EvKey a) s))
  | (inr e, u) => (Raise (UserError e), set_user u (emit (EvKey a) s))
  end.
Proof.
  unfold remove_computed, with_cache_remove_computed, bind.
  rewrite call_key_func_run.
  by destruct (key_func a (user s)) as [[k|e] u].
Qed.

(** The state [raw_remove] leaves behind keeps the user state. *)
Lemma removed_user o k s :
  user (match cached s o k with
        | Some _ => drop_item (reg_key o) k (init_state o s)
        | None => init_state o s
        end) = user s.
Proof. destruct (cached s o k); simpl; apply init_state_user. Qed.

Lemma remove_static_spec key func self a s :
  log (snd (remove_static key func self a s)) =
    log s ++ init_events self s
      ++ match cached s self key with
         | Some _ => [EvDel (reg_key self) key]
         | None => []
         end
      ++ [EvCall self a]
  /\ fst (remove_static key func self a s) =
       user_outcome (func self a (user s))
  /\ cached (snd (remove_static key func self a s)) self key = None
  /\ (forall o k, reg_key o <> reg_key self \/ k <> key ->
        cached (snd (remove_static key func self a s)) o k = cached s o k)
  /\ (forall g a',
        fst (static key g self a' (snd (remove_static key func self a s))) =
          user_outcome
            (g self a' (user (snd (remove_static key func self a s))))
        /\ invocations
             (log (snd (static key g self a'
                          (snd (remove_static key func self a s))))) =
           invocations (log (snd (remove_static key func self a s)))
             ++ [(self, a')]).
Proof.
  assert (cached (snd (remove_static key func self a s)) self key = None)
    as Hgone.
  { rewrite remove_static_run, call_func_run, removed_user.
    destruct (func self a (user s)) as [[v|e] u]; simpl;
      rewrite cached_user_event;
      (destruct (cached s self key) eqn:Hc;
       [apply cached_drop_item_same | by rewrite init_state_cached]). }
  split; [|split; [|split; [done|split]]].
  - rewrite remove_static_run, call_func_run, removed_user.
    destruct (func self a (user s)) as [[v|e] u]; simpl;
      destruct (cached s self key); simpl;
      rewrite init_state_log; by rewrite <- ?app_assoc.
  - rewrite remove_static_run, call_func_run, removed_user. unfold user_outcome.
    by destruct (func self a (user s)) as [[v|e] u].
  - intros o k Hne.
    rewrite remove_static_run, call_func_run, removed_user.
    destruct (func self a (user s)) as [[v|e] u]; simpl;
      rewrite cached_user_event;
      (destruct (cached s self key) eqn:Hc;
       [rewrite cached_drop_item_other by done|]; apply init_state_cached).
  - intros g a'. split; [|by apply static_miss_log].
    unfold static, user_outcome. rewrite with_cache_get_run, Hgone.
    by destruct (g self a' _) as [[v|e] u].
Qed.

(** C4.  A call of an invalidating wrapper first removes the key from the
    cache of [self] when it is there (the log shows the removal before the
    invocation) and removes nothing, raising nothing, when it is not; it
    then invokes [func] on the original arguments and returns the outcome
    of [func] as it is.  No other entry is touched.  After the call the key
    is absent, so that a following memoised lookup under that key invokes
    its computation again and returns what that computation yields.  The
    computed variant does the same under the key that [key_func] returns
    for the arguments. *)
Theorem invalidate_then_recompute key key_func func self a s :
  (log (snd (remove_static key func self a s)) =
     log s ++ init_events self s
       ++ match cached s self key with
          | Some _ => [EvDel (reg_key self) key]
          | None => []
          end
       ++ [EvCall self a]
   /\ fst (remove_static key func self a s) =
        user_outcome (func self a (user s))
   /\ cached (snd (remove_static key func self a s)) self key = None
   /\ (forall o k, reg_key o <> reg_key self \/ k <> key ->
         cached (snd (remove_static key func self a s)) o k = cached s o k)
   /\ (forall g a',
         fst (static key g self a' (snd (remove_static key func self a s))) =
           user_outcome
             (g self a' (user (snd (remove_static key func self a s))))
         /\ invocations
              (log (snd (static key g self a'
                           (snd (remove_static key func self a s))))) =
            invocations (log (snd (remove_static key func self a s)))
              ++ [(self, a')]))
  /\ (forall kc u0, key_func a (user s) = (inl kc, u0) ->
      log (snd (remove_computed key_func func self a s)) =
        log s ++ [EvKey a] ++ init_events self s
          ++ match cached s self kc with
             | Some _ => [EvDel (reg_key self) kc]
             | None => []
             end
          ++ [EvCall self a]
      /\ fst (remove_computed key_func func self a s) =
           user_outcome (func self a u0)
      /\ cached (snd (remove_computed key_func func self a s)) self kc = None
      /\ (forall o k, reg_key o <> reg_key self \/ k <> kc ->
            cached (snd (remove_computed key_func func self a s)) o k =
            cached s o k)
      /\ (forall g a',
            fst (static kc g self a'
                   (snd (remove_computed key_func func self a s))) =
              user_outcome
                (g self a'
                   (user (snd (remove_computed key_func func self a s))))
            /\ invocations
                 (log (snd (static kc g self a'
                              (snd (remove_computed key_func func self a s))))) =
               invocations (log (snd (remove_computed key_func func self a s)))
                 ++ [(self, a')])).
Proof.
  split; [apply remove_static_spec|].
  intros kc u0 Hk. rewrite remove_computed_run, Hk.
  pose proof (remove_static_spec kc func self a
                (set_user u0 (emit (EvKey a) s))) as (Hl & Hr & Hc & Hfr & Hnext).
  split; [|done].
  rewrite Hl. simpl. by rewrite <- app_assoc.
Qed.

(** ** C5: the replacing wrappers *)

Lemma replace_static_run key func self a s :
  replace_static key func self a s =
  match func self a (user s) with
  | (inl v, u) =>
      (Ok v, store_item (reg_key self) key v
               (init_state self (set_user u (emit (EvCall self a) s))))
  | (inr e, u) => (Raise (UserError e), set_user u (emit (EvCall self a) s))
  end.
Proof.
  unfold replace_static, with_cache_replace_static, bind.
  rewrite call_func_run.
  destruct (func self a (user s)) as [[v|e] u]; [|done].
  by rewrite raw_set_run.
Qed.

Lemma replace_computed_run key_func func self a s :
  replace_computed key_func func self a s =
  match key_func a (user s) with
  | (inl k, u) => replace_static k func self a (set_user u (emit (EvKey a) s))
  | (inr e, u) => (Raise (UserError e), set_user u (emit (EvKey a) s))
  end.
Proof.
  unfold replace_computed, with_cache_replace_computed, bind.
  rewrite call_key_func_run.
  by destruct (key_func a (user s)) as [[k|e] u].
Qed.

Lemma replace_static_spec key func self a s :
  fst (replace_static key func self a s) = user_outcome (func self a (user s))
  /\ invocations (log (snd (replace_static key func self a s))) =
       invocations (log s) ++ [(self, a)]
  /\ (forall v u, func self a (user s) = (inl v, u) ->
        cached (snd (replace_static key func self a s)) self key = Some v
        /\ (forall o k, reg_key o <> reg_key self \/ k <> key ->
              cached (snd (replace_static key func self a s)) o k =
              cached s o k)).
Proof.
  rewrite replace_static_run. unfold user_outcome.
  destruct (func self a (user s)) as [[v|e] u] eqn:Hf; simpl.
  - split; [done|]. split.
    + rewrite init_state_log. simpl. rewrite !invocations_app.
      unfold init_events. destruct (registered _ self); simpl;
        by rewrite ?app_nil_r.
    + intros v' u' [= <- <-]. split; [apply cached_store_item_same|].
      intros o k Hne. rewrite cached_store_item_other by done.
      by rewrite init_state_cached.
  - split; [done|]. split; [by rewrite invocations_app | done].
Qed.

(** C5.  A call of a replacing wrapper invokes [func] once on the original
    arguments and returns the outcome of [func], whatever the cache held;
    when [func] returns [v], the entry of the key in the cache of [self]
    is [v] afterwards, whether or not an entry existed before, and no other
    entry is touched.  The computed variant does the same under the key
    that [key_func] returns for the arguments. *)
Theorem replace_overwrites key key_func func self a s :
  (fst (replace_static key func self a s) = user_outcome (func self a (user s))
   /\ invocations (log (snd (replace_static key func self a s))) =
        invocations (log s) ++ [(self, a)]
   /\ (forall v u, func self a (user s) = (inl v, u) ->
         cached (snd (replace_static key func self a s)) self key = Some v
         /\ (forall o k, reg_key o <> reg_key self \/ k <> key ->
               cached (snd (replace_static key func self a s)) o k =
               cached s o k)))
  /\ (forall kc u0, key_func a (user s) = (inl kc, u0) ->
      fst (replace_computed key_func func self a s) =
        user_outcome (func self a u0)
      /\ invocations (log (snd (replace_computed key_func func self a s))) =
           invocations (log s) ++ [(self, a)]
      /\ (forall v u, func self a u0 = (inl v, u) ->
            cached (snd (replace_computed key_func func self a s)) self kc =
              Some v
            /\ (forall o k, reg_key o <> reg_key self \/ k <> kc ->
                  cached (snd (replace_computed key_func func self a s)) o k =
                  cached s o k))).
Proof.
  split; [apply replace_static_spec|].
  intros kc u0 Hk. rewrite replace_computed_run, Hk.
  pose proof (replace_static_spec kc func self a
                (set_user u0 (emit (EvKey a) s))) as (Hr & Hl & Hst).
  split; [done|]. split; [|done].
  rewrite Hl. simpl. rewrite invocations_app. simpl. by rewrite app_nil_r.
Qed.

(** ** C6: [KeyError] and the raw accessors *)

Lemma static_no_KeyError key func self a s k :
  fst (static key func self a s) <> Raise (KeyError k).
Proof.
  unfold static. rewrite with_cache_get_run.
  destruct (cached s self key); [done|].
  by destruct (func self a (user s)) as [[v|e] u].
Qed.

(** C6.  [raw_get] raises [KeyError] exactly when the key is absent from
    the cache of the instance and returns the stored value otherwise; the
    memoised lookups never raise [KeyError], they invoke the computation on
    a miss; [raw_remove] of an absent key returns normally and changes
    neither an entry of any cache, nor the user state, nor the record of
    invocations. *)
Theorem missing_key_behaviour o key s :
  (cached s o key = None <-> fst (raw_get (E:=E) o key s) = Raise (KeyError key))
  /\ (forall v, cached s o key = Some v <-> fst (raw_get (E:=E) o key s) = Ok v)
  /\ (forall func a k, fst (static key func o a s) <> Raise (KeyError k))
  /\ (forall key_func func a k,
        fst (computed key_func func o a s) <> Raise (KeyError k))
  /\ (cached s o key = None ->
      fst (raw_remove (E:=E) o key s) = Ok tt
      /\ (forall o' k, cached (snd (raw_remove (E:=E) o key s)) o' k = cached s o' k)
      /\ user (snd (raw_remove (E:=E) o key s)) = user s
      /\ invocations (log (snd (raw_remove (E:=E) o key s))) = invocations (log s)
      /\ (registered s o = true -> snd (raw_remove (E:=E) o key s) = s)).
Proof.
  split; [|split; [|split; [|split]]].
  - rewrite raw_get_run. destruct (cached s o key); simpl; split; done.
  - intros v. rewrite raw_get_run.
    destruct (cached s o key); simpl; split; congruence.
  - intros func a k. apply static_no_KeyError.
  - intros key_func func a k. rewrite computed_run.
    destruct (key_func a (user s)) as [[kc|e] u]; [|done].
    apply static_no_KeyError.
  - intros Hc. rewrite raw_remove_run, Hc. simpl.
    split; [done|]. split; [intros; apply init_state_cached|].
    split; [apply init_state_user|]. split.
    + rewrite init_state_log, invocations_app. unfold init_events.
      destruct (registered s o); simpl; by rewrite app_nil_r.
    + apply init_state_idle.
Qed.

(** ** C7: errors of the wrapped computation and of the key function *)

(** The memoised lookup raises nothing of its own: an exception that leaves
    it is the exception [func] raised. *)
Lemma static_raise_inv key func self a s (x : exn E) :
  fst (static key func self a s) = Raise x ->
  cached s self key = None /\
  exists e u, func self a (user s) = (inr e, u) /\ x = UserError e.
Proof.
  unfold static. rewrite with_cache_get_run.
  destruct (cached s self key); [done|].
  destruct (func self a (user s)) as [[v|e] u]; simpl; [done|].
  intros [= <-]. eauto.
Qed.

Lemma static_failure key func self a s e u :
  cached s self key = None ->
  func self a (user s) = (inr e, u) ->
  fst (static key func self a s) = Raise (UserError e)
  /\ (forall o k, cached (snd (static key func self a s)) o k = cached s o k)
  /\ user (snd (static key func self a s)) = u.
Proof.
  intros Hc Hf. rewrite (static_miss_raise _ _ _ _ _ _ _ Hc Hf). simpl.
  split; [done|]. split; [|done].
  intros o k. rewrite cached_user_event. apply init_state_cached.
Qed.

(** What the three static-key wrappers do when [func] raises. *)
Lemma static_wrappers_failure key func self a s e u :
  func self a (user s) = (inr e, u) ->
  (cached s self key = None ->
   fst (static key func self a s) = Raise (UserError e)
   /\ (forall o k, cached (snd (static key func self a s)) o k = cached s o k))
  /\ (fst (replace_static key func self a s) = Raise (UserError e)
      /\ (forall o k,
            cached (snd (replace_static key func self a s)) o k = cached s o k))
  /\ (fst (remove_static key func self a s) = Raise (UserError e)
      /\ cached (snd (remove_static key func self a s)) self key = None
      /\ (forall o k, reg_key o <> reg_key self \/ k <> key ->
            cached (snd (remove_static key func self a s)) o k = cached s o k)).
Proof.
  intros Hf. split; [|split].
  - intros Hc.
    destruct (static_failure key func self a s e u Hc Hf) as (? & ? & _).
    done.
  - by rewrite replace_static_run, Hf.
  - destruct (remove_static_spec key func self a s) as (_ & Hr & Hc & Hfr & _).
    split; [|done]. rewrite Hr. unfold user_outcome. by rewrite Hf.
Qed.

Lemma user_outcome_raise_inv (r : (value + E) * U) (x : exn E) :
  user_outcome r = Raise x -> exists e u, r = (inr e, u) /\ x = UserError e.
Proof.
  unfold user_outcome. destruct r as [[v|e] u]; simpl; [done|].
  intros [= <-]. eauto.
Qed.

(** The three static-key wrappers raise only what [func] raised. *)
Lemma static_wrappers_raise_inv key func self a s (x : exn E) :
  fst (static key func self a s) = Raise x
  \/ fst (remove_static key func self a s) = Raise x
  \/ fst (replace_static key func self a s) = Raise x ->
  exists e u, func self a (user s) = (inr e, u) /\ x = UserError e.
Proof.
  intros [Hx|[Hx|Hx]].
  - by destruct (static_raise_inv _ _ _ _ _ _ Hx) as [_ ?].
  - destruct (remove_static_spec key func self a s) as (_ & Hr & _).
    rewrite Hr in Hx. by apply user_outcome_raise_inv.
  - destruct (replace_static_spec key func self a s) as (Hr & _).
    rewrite Hr in Hx. by apply user_outcome_raise_inv.
Qed.

(** C7, as amended.  In each of the six wrappers an exception raised by
    [func] or by [key_func] reaches the caller as it was raised, and the
    wrappers raise nothing else.  A call whose computation failed stores
    nothing.  In the memoising and the replacing wrappers every entry of
    every cache, the one under the key included, is what it was before the
    call.  In the invalidating wrappers the key is absent after the call,
    as it was removed before [func] ran, and every other entry is what it
    was.  When [key_func] raises, the registry is not touched and [func]
    is not invoked, in any of the three computed-key wrappers. *)
Theorem errors_propagate key key_func func self a s e u :
  (func self a (user s) = (inr e, u) ->
   (cached s self key = None ->
    fst (static key func self a s) = Raise (UserError e)
    /\ (forall o k, cached (snd (static key func self a s)) o k = cached s o k))
   /\ (fst (replace_static key func self a s) = Raise (UserError e)
       /\ (forall o k,
             cached (snd (replace_static key func self a s)) o k = cached s o k))
   /\ (fst (remove_static key func self a s) = Raise (UserError e)
       /\ cached (snd (remove_static key func self a s)) self key = None
       /\ (forall o k, reg_key o <> reg_key self \/ k <> key ->
             cached (snd (remove_static key func self a s)) o k =
             cached s o k)))
  /\ (key_func a (user s) = (inr e, u) ->
      forall wrapper,
        In wrapper [computed; remove_computed; replace_computed] ->
        fst (wrapper key_func func self a s) = Raise (UserError e)
        /\ caches (snd (wrapper key_func func self a s)) = caches s
        /\ invocations (log (snd (wrapper key_func func self a s))) =
             invocations (log s))
  /\ (forall kc u0,
        key_func a (user s) = (inl kc, u0) ->
        func self a u0 = (inr e, u) ->
        (cached s self kc = None ->
         fst (computed key_func func self a s) = Raise (UserError e)
         /\ (forall o k,
               cached (snd (computed key_func func self a s)) o k =
               cached s o k))
        /\ (fst (replace_computed key_func func self a s) = Raise (UserError e)
            /\ (forall o k,
                  cached (snd (replace_computed key_func func self a s)) o k =
                  cached s o k))
        /\ (fst (remove_computed key_func func self a s) = Raise (UserError e)
            /\ cached (snd (remove_computed key_func func self a s)) self kc =
                 None
            /\ (forall o k, reg_key o <> reg_key self \/ k <> kc ->
                  cached (snd (remove_computed key_func func self a s)) o k =
                  cached s o k)))
  /\ (forall wrapper,
        In wrapper [static key func; remove_static key func;
                    replace_static key func] ->
        forall x, fst (wrapper self a s) = Raise x ->
        exists e' u', func self a (user s) = (inr e', u') /\ x = UserError e')
  /\ (forall wrapper,
        In wrapper [computed; remove_computed; replace_computed] ->
        forall x, fst (wrapper key_func func self a s) = Raise x ->
        exists e',
          x = UserError e'
          /\ ((exists u', key_func a (user s) = (inr e', u'))
              \/ (exists kc u0 u',
                    key_func a (user s) = (inl kc, u0)
                    /\ func self a u0 = (inr e', u')))).
Proof.
  split; [|split; [|split; [|split]]].
  - apply static_wrappers_failure.
  - intros Hk wrapper [<-|[<-|[<-|[]]]];
      rewrite ?computed_run, ?remove_computed_run, ?replace_computed_run, Hk;
      simpl; (split; [done|]; split; [done|]);
      rewrite invocations_app; simpl; by rewrite app_nil_r.
  - intros kc u0 Hk Hf.
    rewrite computed_run, remove_computed_run, replace_computed_run, Hk.
    apply (static_wrappers_failure kc func self a
             (set_user u0 (emit (EvKey a) s)) e u Hf).
  - intros wrapper [<-|[<-|[<-|[]]]] x Hx;
      apply (static_wrappers_raise_inv key func self a s x); auto.
  - assert (forall (w : value -> method U E -> instance -> args -> M U E value)
              (m : M U E value) x,
      (forall k0 s0 x0, fst (w k0 func self a s0) = Raise x0 ->
         fst (static k0 func self a s0) = Raise x0
         \/ fst (remove_static k0 func self a s0) = Raise x0
         \/ fst (replace_static k0 func self a s0) = Raise x0) ->
      m s = match key_func a (user s) with
            | (inl k, u1) => w k func self a (set_user u1 (emit (EvKey a) s))
            | (inr e1, u1) =>
                (Raise (UserError e1), set_user u1 (emit (EvKey a) s))
            end ->
      fst (m s) = Raise x ->
      exists e', x = UserError e'
        /\ ((exists u', key_func a (user s) = (inr e', u'))
            \/ (exists kc u0 u',
                  key_func a (user s) = (inl kc, u0)
                  /\ func self a u0 = (inr e', u')))) as Hcomputed.
    { intros w m x Hw -> Hx.
      destruct (key_func a (user s)) as [[kc|e1] u1] eqn:Hk.
      - destruct (static_wrappers_raise_inv kc func self a
                    (set_user u1 (emit (EvKey a) s)) x (Hw _ _ _ Hx))
          as (e' & u' & Hf & ->).
        exists e'. split; [done|]. right. by exists kc, u1, u'.
      - simpl in Hx. injection Hx as <-. exists e1. split; [done|].
        left. eauto. }
    intros wrapper [<-|[<-|[<-|[]]]] x Hx.
    + apply (Hcomputed static (computed key_func func self a) x);
        [auto | apply computed_run | done].
    + apply (Hcomputed remove_static (remove_computed key_func func self a) x);
        [auto | apply remove_computed_run | done].
    + apply (Hcomputed replace_static (replace_computed key_func func self a) x);
        [auto | apply replace_computed_run | done].
Qed.

(** The replacing wrappers store after [func] has returned: when [func]
    raises, the registry is not touched at all. *)
Lemma replace_static_failure key func self a s e u :
  func self a (user s) = (inr e, u) ->
  fst (replace_static key func self a s) = Raise (UserError e)
  /\ caches (snd (replace_static key func self a s)) = caches s.
Proof. intros Hf. by rewrite replace_static_run, Hf. Qed.

(** The invalidating wrappers remove before [func] runs: when [func]
    raises, the exception reaches the caller and the key stays removed. *)
Lemma remove_static_failure key func self a s e u :
  func self a (user s) = (inr e, u) ->
  fst (remove_static key func self a s) = Raise (UserError e)
  /\ cached (snd (remove_static key func self a s)) self key = None.
Proof.
  intros Hf.
  destruct (remove_static_spec key func self a s) as (_ & Hr & Hc & _).
  split; [|done]. rewrite Hr. unfold user_outcome. by rewrite Hf.
Qed.

(** ** C8: a cached [None] *)

(** C8.  When the computation returns [None], the first call stores [None]
    under the key; the entry is there ([raw_get] returns [None], it does
    not raise), and a later call under the same key returns [None] and
    leaves the state as it is, the computation not being invoked again,
    although [None] is falsy. *)
Theorem none_is_cached key func self a a' s u :
  cached s self key = None ->
  func self a (user s) = (inl VNone, u) ->
  fst (static key func self a s) = Ok VNone
  /\ cached (snd (static key func self a s)) self key = Some VNone
  /\ fst (raw_get (E:=E) self key (snd (static key func self a s))) = Ok VNone
  /\ static key func self a' (snd (static key func self a s)) =
       (Ok VNone, snd (static key func self a s))
  /\ truthy VNone = false.
Proof.
  intros Hc Hf.
  destruct (static_miss_ok key func self a s VNone u Hc Hf) as (Hr & Hs & _).
  split; [done|]. split; [done|]. split.
  - by rewrite raw_get_run, Hs.
  - split; [by apply static_hit | done].
Qed.

(** ** C10: when the key function is evaluated *)

Lemma key_evals_init_events o s : key_evals (init_events o s) = [].
Proof. unfold init_events. by destruct (registered s o). Qed.

(** The static-key bodies never evaluate a key function. *)
Lemma static_log key func self a s :
  exists evs, log (snd (static key func self a s)) = log s ++ evs
              /\ key_evals evs = [].
Proof.
  unfold static. rewrite with_cache_get_run.
  destruct (cached s self key) as [v|]; simpl.
  { exists (init_events self s). by rewrite init_state_log, key_evals_init_events. }
  destruct (func self a (user s)) as [[v|e] u]; simpl; rewrite init_state_log.
  - exists (init_events self s ++ [EvCall self a; EvSet (reg_key self) key v]).
    rewrite key_evals_app, key_evals_init_events.
    split; [|done]. rewrite <- !app_assoc. done.
  - exists (init_events self s ++ [EvCall self a]).
    rewrite key_evals_app, key_evals_init_events.
    split; [|done]. by rewrite <- !app_assoc.
Qed.

Lemma remove_static_log key func self a s :
  exists evs, log (snd (remove_static key func self a s)) = log s ++ evs
              /\ key_evals evs = [].
Proof.
  destruct (remove_static_spec key func self a s) as (Hl & _).
  eexists. split; [exact Hl|].
  rewrite !key_evals_app, key_evals_init_events.
  by destruct (cached s self key).
Qed.

Lemma replace_static_log key func self a s :
  exists evs, log (snd (replace_static key func self a s)) = log s ++ evs
              /\ key_evals evs = [].
Proof.
  rewrite replace_static_run.
  destruct (func self a (user s)) as [[v|e] u]; simpl.
  - rewrite init_state_log. simpl.
    exists ([EvCall self a]
              ++ init_events self (set_user u (emit (EvCall self a) s))
              ++ [EvSet (reg_key self) key v]).
    split; [by rewrite <- !app_assoc|].
    by rewrite !key_evals_app, key_evals_init_events.
  - by exists [EvCall self a].
Qed.

(** A computed-key body whose static counterpart is [body]: the key is
    evaluated first, on the state the call started in. *)
Lemma key_first (body : value -> method U E -> instance -> args -> M U E value)
    (wrapper : M U E value) key_func func self a s :
  (forall k s0, exists evs,
      log (snd (body k func self a s0)) = log s0 ++ evs /\ key_evals evs = []) ->
  wrapper s =
    match key_func a (user s) with
    | (inl k, u) => body k func self a (set_user u (emit (EvKey a) s))
    | (inr e, u) => (Raise (UserError e), set_user u (emit (EvKey a) s))
    end ->
  (exists evs, log (snd (wrapper s)) = log s ++ EvKey a :: evs
               /\ key_evals evs = [])
  /\ (forall e u, key_func a (user s) = (inr e, u) ->
        fst (wrapper s) = Raise (UserError e)
        /\ caches (snd (wrapper s)) = caches s
        /\ invocations (log (snd (wrapper s))) = invocations (log s)).
Proof.
  intros Hbody ->. destruct (key_func a (user s)) as [[k|e] u]; simpl.
  - split; [|done].
    destruct (Hbody k (set_user u (emit (EvKey a) s))) as (evs & Hl & Hq).
    exists evs. split; [|done].
    rewrite Hl. simpl. by rewrite <- app_assoc.
  - split; [by exists []|]. intros e' u' [= <- <-].
    split; [done|]. split; [done|].
    rewrite invocations_app. simpl. by rewrite app_nil_r.
Qed.

(** C10.  Each of the three computed-key wrappers evaluates [key_func]
    exactly once per call, hits included: the events of a call start with
    the evaluation of the key, which thus precedes the invocation of [func]
    and every change of the registry or of a cache, and no other evaluation
    follows.  When [key_func] raises, the exception is the outcome of the
    call, [func] is not invoked and the registry is what it was. *)
Theorem key_function_first
    (wrapper : key_function U E -> method U E -> instance -> args -> M U E value)
    key_func func self a s :
  In wrapper [computed; remove_computed; replace_computed] ->
  (exists evs,
      log (snd (wrapper key_func func self a s)) = log s ++ EvKey a :: evs
      /\ key_evals evs = [])
  /\ (forall e u, key_func a (user s) = (inr e, u) ->
        fst (wrapper key_func func self a s) = Raise (UserError e)
        /\ caches (snd (wrapper key_func func self a s)) = caches s
        /\ invocations (log (snd (wrapper key_func func self a s))) =
             invocations (log s)).
Proof.
  intros [<-|[<-|[<-|[]]]].
  - apply (key_first static (computed key_func func self a)
             key_func func self a s);
      [intros; apply static_log | apply computed_run].
  - apply (key_first remove_static (remove_computed key_func func self a)
             key_func func self a s);
      [intros; apply remove_static_log | apply remove_computed_run].
  - apply (key_first replace_static (replace_computed key_func func self a)
             key_func func self a s);
      [intros; apply replace_static_log | apply replace_computed_run].
Qed.

(** ** C9: which instances share a cache *)

(** Objects that keep the default, identity-based [__eq__] and [__hash__]
    are equal only to themselves. *)
Lemma plain_objects_not_equal (o1 o2 : instance) :
  eq_value o1 = None -> eq_value o2 = None ->
  ~ same_object o1 o2 -> ~ py_equal o1 o2.
Proof.
  unfold same_object, py_equal, reg_key. intros -> -> Hne [= Heq]. done.
Qed.

(** Instances that do not compare equal have separate caches: no operation
    on [o1] changes what the cache of [o2] holds. *)
Lemma isolation (o1 o2 : instance) key v func a s k :
  ~ py_equal o2 o1 ->
  cached (snd (raw_set (E:=E) o1 key v s)) o2 k = cached s o2 k
  /\ cached (snd (raw_get (E:=E) o1 key s)) o2 k = cached s o2 k
  /\ cached (snd (raw_remove (E:=E) o1 key s)) o2 k = cached s o2 k
  /\ cached (snd (static key func o1 a s)) o2 k = cached s o2 k
  /\ cached (snd (remove_static key func o1 a s)) o2 k = cached s o2 k
  /\ cached (snd (replace_static key func o1 a s)) o2 k = cached s o2 k.
Proof.
  unfold py_equal. intros Hne. repeat split.
  - rewrite raw_set_run. simpl.
    rewrite cached_store_item_other by (by left). apply init_state_cached.
  - rewrite raw_get_run. apply init_state_cached.
  - rewrite raw_remove_run. simpl. destruct (cached s o1 key).
    + rewrite cached_drop_item_other by (by left). apply init_state_cached.
    + apply init_state_cached.
  - apply static_frame. by left.
  - destruct (remove_static_spec key func o1 a s) as (_ & _ & _ & Hfr & _).
    apply Hfr. by left.
  - rewrite replace_static_run.
    destruct (func o1 a (user s)) as [[w|e] u]; simpl; [|done].
    rewrite cached_store_item_other by (by left).
    by rewrite init_state_cached.
Qed.

(** An instance is registered by its own first access or by the first
    access of an instance equal to it, never by another one. *)
Lemma registered_by_equal_only (o1 o2 : instance) s :
  ~ py_equal o2 o1 ->
  registered (init_state o1 s) o2 = registered s o2.
Proof. apply init_state_registered_other. Qed.

(** Equal instances are one key of the registry: they have the same cache. *)
Lemma equal_instances_same_cache (o1 o2 : instance) s k :
  py_equal o1 o2 -> cached s o1 k = cached s o2 k.
Proof. unfold py_equal, cached. by intros ->. Qed.

End Properties.

(** * The theorems on the sample programs *)

(** The state after [obj] has memoised [counter] under ["x"]. *)
Lemma cached_once_value :
  cached (snd (static (VStr "x") counter obj no_args (fresh 0%nat)))
    obj (VStr "x") = Some (VInt 1).
Proof. reflexivity. Qed.

Lemma static_lookup_witness :
  static (VStr "x") counter obj no_args
    (snd (static (VStr "x") counter obj no_args (fresh 0%nat))) =
  (Ok (VInt 1), snd (static (VStr "x") counter obj no_args (fresh 0%nat)))
  /\ fst (static (VStr "x") counter obj no_args (fresh 0%nat)) = Ok (VInt 1).
Proof.
  split.
  - apply (proj1 (static_lookup (VStr "x") counter obj no_args
                    (snd (static (VStr "x") counter obj no_args (fresh 0%nat))))).
    reflexivity.
  - destruct (proj2 (static_lookup (VStr "x") counter obj no_args (fresh 0%nat))
                eq_refl) as (_ & _ & H).
    exact (proj1 (H (VInt 1) 1%nat eq_refl)).
Defined.

(** The spec's example: [counter] memoised under ["x"] yields 1, then 1
    again from the cache, and 2 once the entry has been removed. *)
Example spec_example :
  let m := static (VStr "x") counter obj no_args in
  let s1 := snd (m (fresh 0%nat)) in
  let s2 := snd (m s1) in
  let s3 := snd (raw_remove (E:=string) obj (VStr "x") s2) in
  fst (m (fresh 0%nat)) = Ok (VInt 1)
  /\ fst (m s1) = Ok (VInt 1)
  /\ invocations (log s2) = [(obj, no_args)]
  /\ fst (m s3) = Ok (VInt 2).
Proof. repeat split. Qed.

(** *** C2 *)

Lemma static_idempotent_witness :
  fst (call_each (static (VStr "x") counter) obj
         [no_args; args_of (VInt 7); no_args] (fresh 0%nat)) =
    [Ok (VInt 1); Ok (VInt 1); Ok (VInt 1)]
  /\ invocations
       (log (snd (call_each (static (VStr "x") counter) obj
                    [no_args; args_of (VInt 7); no_args] (fresh 0%nat)))) =
     [(obj, no_args)].
Proof.
  destruct (static_idempotent (VStr "x") counter obj no_args
              [args_of (VInt 7); no_args] (fresh 0%nat) (VInt 1) 1%nat
              eq_refl eq_refl) as (_ & Hr & Hl).
  split; [exact Hr | exact Hl].
Defined.

(** C2 as stated fails when the computation raises: [flaky] raises on its
    first invocation, nothing is cached, and the second call invokes it
    again.  Two calls then yield two different outcomes, the first of which
    is what a single call yields, and [flaky] has run twice. *)
Lemma static_idempotent_counterexample :
  let run :=
    call_each (static (VStr "x") flaky) obj [no_args; no_args] (fresh 0%nat) in
  fst run = [Raise (UserError "boom"%string); Ok (VInt 2)]
  /\ invocations (log (snd run)) = [(obj, no_args); (obj, no_args)]
  /\ ~ (Forall
          (fun r => r = fst (static (VStr "x") flaky obj no_args (fresh 0%nat)))
          (fst run)
        /\ length (invocations (log (snd run))) = 1%nat).
Proof.
  split; [reflexivity|]. split; [reflexivity|].
  intros [_ H]. vm_compute in H. discriminate H.
Qed.

(** *** C3 *)



Lemma computed_lookup_witness :
  invocations
    (log (snd (call_each (computed first_arg flaky) obj
                 [args_of (VInt 7); args_of (VInt 8)] (fresh 0%nat)))) =
    [(obj, args_of (VInt 7)); (obj, args_of (VInt 8))]
  /\ fst (call_each (computed first_arg flaky) obj
            [args_of (VInt 7); args_of (VInt 8)] (fresh 0%nat)) =
     [Raise (UserError "boom"%string); Ok (VInt 2)]
  /\ invocations
       (log (snd (call_each (computed first_arg flaky) obj
                    [args_of (VInt 7); args_of (VInt 7)] (fresh 1%nat)))) =
     [(obj, args_of (VInt 7))]
  /\ fst (call_each (computed first_arg flaky) obj
            [args_of (VInt 7); args_of (VInt 7)] (fresh 1%nat)) =
     [Ok (VInt 2); Ok (VInt 2)]
  /\ computed first_arg counter obj (args_of (VInt 7)) (fresh 0%nat) =
     static (VInt 7) counter obj (args_of (VInt 7))
       (set_user 0%nat (emit (EvKey (args_of (VInt 7))) (fresh 0%nat))).
Proof.
  destruct (computed_lookup first_arg flaky obj) as (_ & H2 & H3).
  destruct (computed_lookup first_arg counter obj) as (H1 & _ & _).
  destruct (H2 (args_of (VInt 7)) (args_of (VInt 8)) (VInt 7) (VInt 8)
              0%nat 1%nat (fresh 0%nat) eq_refl eq_refl)
    as (Hl & Hr & _); [discriminate | reflexivity | reflexivity |].
  destruct (H3 (args_of (VInt 7)) (VInt 7) 1%nat (VInt 2) 2%nat 2%nat
              (fresh 1%nat) eq_refl eq_refl eq_refl eq_refl) as (Hl' & Hr').
  split; [exact Hl|]. split; [exact Hr|]. split; [exact Hl'|].
  split; [exact Hr'|].
  apply (H1 (args_of (VInt 7)) (fresh 0%nat) (VInt 7) 0%nat). reflexivity.
Defined.

(** C3 as stated fails in the same way: two calls with the same argument
    set invoke [flaky] twice, because its first invocation raised and left
    no entry under the derived key. *)
Lemma computed_lookup_counterexample :
  let run :=
    call_each (computed first_arg flaky) obj
      [args_of (VInt 7); args_of (VInt 7)] (fresh 0%nat) in
  fst run = [Raise (UserError "boom"%string); Ok (VInt 2)]
  /\ invocations (log (snd run)) =
       [(obj, args_of (VInt 7)); (obj, args_of (VInt 7))]
  /\ length (invocations (log (snd run))) <> 1%nat.
Proof.
  split; [reflexivity|]. split; [reflexivity|].
  vm_compute. discriminate.
Qed.

(** *** C4 and C5 *)

Lemma invalidate_then_recompute_witness :
  (fst (remove_static (VStr "x") counter obj (args_of (VInt 7)) stale) =
     Ok (VInt 1)
   /\ cached (snd (remove_static (VStr "x") counter obj (args_of (VInt 7)) stale))
        obj (VStr "x") = None)
  /\ (fst (remove_computed first_arg counter obj (args_of (VInt 7)) stale) =
        Ok (VInt 1)
      /\ cached
           (snd (remove_computed first_arg counter obj (args_of (VInt 7)) stale))
           obj (VInt 7) = None).
Proof.
  destruct (invalidate_then_recompute (VStr "x") first_arg counter obj
              (args_of (VInt 7)) stale) as [Hs Hc].
  split.
  - destruct Hs as (_ & Hr & Hgone & _). split; [exact Hr | exact Hgone].
  - destruct (Hc (VInt 7) 0%nat eq_refl) as (_ & Hr & Hgone & _).
    split; [exact Hr | exact Hgone].
Defined.

Lemma replace_overwrites_witness :
  (fst (replace_static (VStr "x") counter obj (args_of (VInt 7)) stale) =
     Ok (VInt 1)
   /\ cached (snd (replace_static (VStr "x") counter obj (args_of (VInt 7)) stale))
        obj (VStr "x") = Some (VInt 1))
  /\ (fst (replace_computed first_arg counter obj (args_of (VInt 7)) stale) =
        Ok (VInt 1)
      /\ cached
           (snd (replace_computed first_arg counter obj (args_of (VInt 7)) stale))
           obj (VInt 7) = Some (VInt 1)).
Proof.
  destruct (replace_overwrites (VStr "x") first_arg counter obj
              (args_of (VInt 7)) stale) as [Hs Hc].
  split.
  - destruct Hs as (Hr & _ & Hst). split; [exact Hr|].
    exact (proj1 (Hst (VInt 1) 1%nat eq_refl)).
  - destruct (Hc (VInt 7) 0%nat eq_refl) as (Hr & _ & Hst).
    split; [exact Hr|]. exact (proj1 (Hst (VInt 1) 1%nat eq_refl)).
Defined.

(** *** C6 *)

Lemma missing_key_behaviour_witness :
  fst (raw_get (E:=string) obj (VStr "x") (fresh 0%nat)) =
    Raise (KeyError (VStr "x"))
  /\ fst (raw_get (E:=string) obj (VStr "x") stale) = Ok (VStr "old")
  /\ fst (raw_remove (E:=string) obj (VStr "y") stale) = Ok tt
  /\ snd (raw_remove (E:=string) obj (VStr "y") stale) = stale.
Proof.
  split; [|split].
  - apply (proj1 (missing_key_behaviour (E:=string) obj (VStr "x") (fresh 0%nat))).
    reflexivity.
  - destruct (missing_key_behaviour (E:=string) obj (VStr "x") stale)
      as (_ & H & _).
    apply H. reflexivity.
  - destruct (missing_key_behaviour (E:=string) obj (VStr "y") stale)
      as (_ & _ & _ & _ & H).
    destruct (H eq_refl) as (Hok & _ & _ & _ & Hsame).
    split; [exact Hok | exact (Hsame eq_refl)].
Defined.

(** *** C7 *)

Lemma errors_propagate_witness :
  (fst (static (VStr "x") failing obj no_args (fresh 0%nat)) =
     Raise (UserError "boom"%string)
   /\ cached (snd (static (VStr "x") failing obj no_args (fresh 0%nat)))
        obj (VStr "x") = None)
  /\ (fst (replace_static (VStr "x") failing obj no_args stale) =
        Raise (UserError "boom"%string)
      /\ cached (snd (replace_static (VStr "x") failing obj no_args stale))
           obj (VStr "x") = Some (VStr "old"))
  /\ fst (remove_static (VStr "x") failing obj no_args stale) =
       Raise (UserError "boom"%string)
  /\ fst (remove_computed first_arg counter obj no_args stale) =
       Raise (UserError "no argument"%string)
  /\ fst (computed first_arg failing obj (args_of (VInt 8)) stale) =
       Raise (UserError "boom"%string)
  /\ (exists e', UserError "boom"%string = UserError e'
        /\ ((exists u', first_arg (args_of (VInt 7)) (user stale) =
                          (inr e', u'))
            \/ (exists kc u0 u',
                  first_arg (args_of (VInt 7)) (user stale) = (inl kc, u0)
                  /\ failing obj (args_of (VInt 7)) u0 = (inr e', u')))).
Proof.
  destruct (errors_propagate (VStr "x") first_arg failing obj no_args
              (fresh 0%nat) "boom"%string 1%nat) as (Hfresh & _).
  destruct (Hfresh eq_refl) as (Hst & _).
  destruct (errors_propagate (VStr "x") first_arg failing obj no_args
              stale "boom"%string 1%nat) as (Hstale & _).
  destruct (Hstale eq_refl) as (_ & Hrep & Hrem).
  destruct (errors_propagate (VStr "x") first_arg counter obj no_args
              stale "no argument"%string 0%nat) as (_ & Hkey & _).
  destruct (errors_propagate (VStr "x") first_arg failing obj
              (args_of (VInt 8)) stale "boom"%string 1%nat)
    as (_ & _ & Hcomp & _).
  destruct (Hcomp (VInt 8) 0%nat eq_refl eq_refl) as (Hc & _).
  destruct (errors_propagate (VStr "x") first_arg failing obj
              (args_of (VInt 7)) stale "boom"%string 1%nat)
    as (_ & _ & _ & _ & Hinv).
  split; [|split; [|split; [|split; [|split]]]].
  - destruct (Hst eq_refl) as [Hr Hsame].
    split; [exact Hr | exact (Hsame obj (VStr "x"))].
  - destruct Hrep as [Hr Hsame].
    split; [exact Hr | exact (Hsame obj (VStr "x"))].
  - exact (proj1 Hrem).
  - exact (proj1 (Hkey eq_refl remove_computed (or_intror (or_introl eq_refl)))).
  - exact (proj1 (Hc eq_refl)).
  - apply (Hinv remove_computed).
    + right. left. reflexivity.
    + reflexivity.
Defined.

(** C7 as stated fails for the invalidating wrappers: ["x"] is cached for
    [obj]; the call of the method wrapped by [remove_static "x"] fails, the
    exception reaches the caller, and ["x"] is cached no more.  The failed
    computation has not left the cache unmodified for that key. *)
Lemma errors_propagate_counterexample :
  cached stale obj (VStr "x") = Some (VStr "old")
  /\ fst (remove_static (VStr "x") failing obj no_args stale) =
       Raise (UserError "boom"%string)
  /\ cached (snd (remove_static (VStr "x") failing obj no_args stale))
       obj (VStr "x") = None
  /\ cached (snd (remove_static (VStr "x") failing obj no_args stale))
       obj (VStr "x") <> cached stale obj (VStr "x").
Proof. repeat split. discriminate. Qed.

(** *** C8 *)

Lemma none_is_cached_witness :
  cached (snd (static (VStr "x") returns_none obj no_args (fresh 0%nat)))
    obj (VStr "x") = Some VNone
  /\ static (VStr "x") returns_none obj (args_of (VInt 7))
       (snd (static (VStr "x") returns_none obj no_args (fresh 0%nat))) =
     (Ok VNone, snd (static (VStr "x") returns_none obj no_args (fresh 0%nat))).
Proof.
  destruct (none_is_cached (VStr "x") returns_none obj no_args
              (args_of (VInt 7)) (fresh 0%nat) 1%nat eq_refl eq_refl)
    as (_ & Hc & _ & Hhit & _).
  split; [exact Hc | exact Hhit].
Defined.

(** *** C9 *)

(** C9 on two distinct objects that compare equal.  [point_a] and [point_b]
    are different objects of a class that hashes and compares by value, and
    their values are equal.  After [raw_set(point_a, "x", 1)], [point_b],
    which the module has not seen yet, is already a key of the registry,
    [raw_get(point_b, "x")] returns 1 where [KeyError] is due, and a method
    of [point_b] memoised under ["x"] returns 1 without being invoked. *)
Theorem equal_instances_share_cache :
  let s1 := snd (raw_set (E:=string) point_a (VStr "x") (VInt 1) (fresh 0%nat)) in
  ~ same_object point_a point_b
  /\ py_equal point_a point_b
  /\ registered (fresh 0%nat) point_b = false
  /\ registered s1 point_b = true
  /\ fst (raw_get (E:=string) point_b (VStr "x") s1) = Ok (VInt 1)
  /\ static (VStr "x") counter point_b no_args s1 = (Ok (VInt 1), s1)
  /\ invocations (log (snd (static (VStr "x") counter point_b no_args s1))) = [].
Proof.
  split; [discriminate|]. repeat split.
Qed.

(** *** C10 *)

Lemma key_function_first_witness :
  fst (replace_computed first_arg counter obj no_args stale) =
    Raise (UserError "no argument"%string)
  /\ caches (snd (replace_computed first_arg counter obj no_args stale)) =
     caches stale
  /\ invocations (log (snd (replace_computed first_arg counter obj no_args stale))) =
     invocations (log stale).
Proof.
  destruct (key_function_first replace_computed first_arg counter obj no_args
              stale (or_intror (or_intror (or_introl eq_refl)))) as [_ H].
  exact (H "no argument"%string 0%nat eq_refl).
Defined.

(** * The raw accessors and the composition of the operations *)

Section Composition.

Context {U E : Type}.

Implicit Types (s : state U) (o self : instance) (c : slot)
  (key k v : value) (a : args) (func g : method U E)
  (key_func : key_function U E).

(** ** Registration and the updates of a cache *)

Lemma registered_init_state o s o' :
  registered s o' = true -> registered (init_state (E:=E) o s) o' = true.
Proof.
  intros Hr. destruct (decide (reg_key o' = reg_key o)) as [Heq|Hne].
  - unfold registered in *. rewrite Heq.
    apply (init_state_registered (E:=E) o s).
  - by rewrite init_state_registered_other.
Qed.

Lemma registered_store_item c k v s o :
  registered s o = true -> registered (store_item c k v s) o = true.
Proof.
  unfold registered, store_item; simpl.
  intros Hr%bool_decide_eq_true. apply bool_decide_eq_true_2.
  apply lookup_insert_is_Some. destruct (decide (c = reg_key o)); auto.
Qed.

Lemma registered_drop_item c k s o :
  registered s o = true -> registered (drop_item c k s) o = true.
Proof.
  unfold registered, drop_item; simpl.
  intros Hr%bool_decide_eq_true. apply bool_decide_eq_true_2.
  apply lookup_insert_is_Some. destruct (decide (c = reg_key o)); auto.
Qed.

Lemma registered_own_store_item o k v s :
  registered (store_item (reg_key o) k v s) o = true.
Proof.
  unfold registered, store_item; simpl. apply bool_decide_eq_true_2.
  rewrite lookup_insert_eq. by eexists.
Qed.

(** ** [_lazy_init] *)

(** A second [_lazy_init] of the same instance returns the same cache and
    changes nothing; the first one may register an empty cache but changes
    no entry of any cache. *)
Theorem lazy_init_idempotent o s :
  _lazy_init (E:=E) o (snd (_lazy_init (E:=E) o s)) =
    (Ok (reg_key o), snd (_lazy_init (E:=E) o s))
  /\ (forall o' k, cached (snd (_lazy_init (E:=E) o s)) o' k = cached s o' k)
  /\ (registered s o = false ->
      caches (snd (_lazy_init (E:=E) o s)) = <[reg_key o := ∅]> (caches s)).
Proof.
  split; [|split].
  - rewrite (lazy_init_run (E:=E) o (snd _)).
    fold (init_state (E:=E) o s).
    by rewrite (init_state_idle _ _ (init_state_registered (E:=E) o s)).
  - intros o' k. apply (init_state_cached (E:=E)).
  - unfold registered, _lazy_init. intros H%bool_decide_eq_false.
    destruct (caches s !! reg_key o) eqn:Hc; simpl; [|done].
    exfalso. apply H. by eexists.
Qed.

(** ** Round trips of the raw accessors *)

(** What [raw_set] stored is what [raw_get] returns. *)
Theorem raw_set_get_roundtrip o k v s :
  fst (raw_get (E:=E) o k (snd (raw_set (E:=E) o k v s))) = Ok v.
Proof.
  rewrite raw_get_run, raw_set_run. simpl.
  by rewrite cached_store_item_same.
Qed.

(** Of two [raw_set] under one key the last one wins: the registry is the
    one the second [raw_set] alone would have produced. *)
Theorem raw_set_last_write_wins o k v1 v2 s :
  caches (snd (raw_set (E:=E) o k v2 (snd (raw_set (E:=E) o k v1 s)))) =
  caches (snd (raw_set (E:=E) o k v2 s)).
Proof.
  rewrite !raw_set_run. simpl.
  rewrite (init_state_idle (E:=E) o (store_item _ _ _ _))
    by apply registered_own_store_item.
  rewrite deref_store_item, decide_True by done.
  unfold store_item; simpl.
  by rewrite !insert_insert_eq.
Qed.

Lemma raw_remove_gone o k s : cached (snd (raw_remove (E:=E) o k s)) o k = None.
Proof.
  rewrite raw_remove_run. simpl. destruct (cached s o k) eqn:Hc.
  - apply cached_drop_item_same.
  - by rewrite init_state_cached.
Qed.

(** [raw_remove] never raises, leaves the key absent, and a second
    [raw_remove] of the same key changes nothing at all. *)
Theorem raw_remove_idempotent o k s :
  fst (raw_remove (E:=E) o k s) = Ok tt
  /\ cached (snd (raw_remove (E:=E) o k s)) o k = None
  /\ raw_remove (E:=E) o k (snd (raw_remove (E:=E) o k s)) =
       (Ok tt, snd (raw_remove (E:=E) o k s)).
Proof.
  pose proof (raw_remove_gone o k s) as Hgone.
  split; [by rewrite raw_remove_run|]. split; [done|].
  rewrite (raw_remove_run o k (snd _)), Hgone. f_equal.
  apply init_state_idle. rewrite raw_remove_run. simpl.
  destruct (cached s o k).
  - apply registered_drop_item, init_state_registered.
  - apply init_state_registered.
Qed.

(** [raw_remove] undoes [raw_set] of a key that was absent: the registry is
    back to what a bare access of the instance leaves, and [raw_get] raises
    [KeyError] again. *)
Theorem raw_set_remove_roundtrip o k v s :
  cached s o k = None ->
  caches (snd (raw_remove (E:=E) o k (snd (raw_set (E:=E) o k v s)))) =
    caches (snd (_lazy_init (E:=E) o s))
  /\ fst (raw_get (E:=E) o k
            (snd (raw_remove (E:=E) o k (snd (raw_set (E:=E) o k v s))))) =
     Raise (KeyError k).
Proof.
  intros Hc.
  assert (caches (snd (raw_remove (E:=E) o k (snd (raw_set (E:=E) o k v s)))) =
          caches (init_state (E:=E) o s)) as Heq.
  { rewrite raw_remove_run, raw_set_run. simpl.
    rewrite cached_store_item_same.
    rewrite (init_state_idle (E:=E) o (store_item _ _ _ _))
      by apply registered_own_store_item.
    unfold drop_item; simpl.
    rewrite deref_store_item, decide_True by done.
    unfold store_item; simpl.
    rewrite insert_insert_eq.
    assert (deref (init_state (E:=E) o s) (reg_key o) !! k = None) as Hk.
    { rewrite init_state_deref. exact Hc. }
    rewrite delete_insert_id by exact Hk.
    pose proof (init_state_registered (E:=E) o s) as Hr.
    unfold registered in Hr. apply bool_decide_eq_true in Hr as [d Hd].
    unfold deref. rewrite Hd. simpl. by apply insert_id. }
  split; [exact Heq|].
  rewrite raw_get_run. simpl.
  unfold cached, deref. rewrite Heq.
  fold (deref (init_state (E:=E) o s) (reg_key o)).
  rewrite init_state_deref. fold (cached s o k). by rewrite Hc.
Qed.

(** [raw_get] on an instance the module has not seen raises [KeyError], and
    yet registers an empty cache for the instance. *)
Theorem raw_get_registers o k s :
  registered s o = false ->
  fst (raw_get (E:=E) o k s) = Raise (KeyError k)
  /\ caches (snd (raw_get (E:=E) o k s)) = <[reg_key o := ∅]> (caches s)
  /\ registered (snd (raw_get (E:=E) o k s)) o = true.
Proof.
  intros Hr. rewrite raw_get_run. simpl.
  assert (cached s o k = None) as ->.
  { destruct (cached s o k) eqn:Hc; [|done].
    apply cached_registered in Hc. congruence. }
  split; [done|]. split; [|apply init_state_registered].
  apply bool_decide_eq_false in Hr.
  unfold init_state, _lazy_init.
  destruct (caches s !! reg_key o) eqn:Hc; simpl; [|done].
  exfalso. apply Hr. by eexists.
Qed.

(** ** Every operation touches one entry at most *)

Lemma one_entry_touched_aux key func self a s o k :
  reg_key o <> reg_key self \/ k <> key ->
  cached (snd (static key func self a s)) o k = cached s o k
  /\ cached (snd (remove_static key func self a s)) o k = cached s o k
  /\ cached (snd (replace_static key func self a s)) o k = cached s o k.
Proof.
  intros Hne. repeat split.
  - by apply static_frame.
  - destruct (remove_static_spec key func self a s) as (_ & _ & _ & Hfr & _).
    by apply Hfr.
  - rewrite replace_static_run.
    destruct (func self a (user s)) as [[w|e] u]; simpl; [|done].
    rewrite cached_store_item_other by done.
    by rewrite init_state_cached.
Qed.

(** The raw accessors and the static-key wrappers change no entry but the
    one of [self] under [key]: the other keys of [self] and all keys of the
    instances that do not compare equal to [self] keep what they hold. *)
Theorem one_entry_touched self key v func a s o k :
  reg_key o <> reg_key self \/ k <> key ->
  cached (snd (raw_set (E:=E) self key v s)) o k = cached s o k
  /\ cached (snd (raw_get (E:=E) self key s)) o k = cached s o k
  /\ cached (snd (raw_remove (E:=E) self key s)) o k = cached s o k
  /\ cached (snd (static key func self a s)) o k = cached s o k
  /\ cached (snd (remove_static key func self a s)) o k = cached s o k
  /\ cached (snd (replace_static key func self a s)) o k = cached s o k.
Proof.
  intros Hne. repeat split.
  - rewrite raw_set_run. simpl.
    rewrite cached_store_item_other by done. apply init_state_cached.
  - rewrite raw_get_run. apply init_state_cached.
  - rewrite raw_remove_run. simpl. destruct (cached s self key).
    + rewrite cached_drop_item_other by done. apply init_state_cached.
    + apply init_state_cached.
  - by apply static_frame.
  - destruct (remove_static_spec key func self a s) as (_ & _ & _ & Hfr & _).
    by apply Hfr.
  - rewrite replace_static_run.
    destruct (func self a (user s)) as [[w|e] u]; simpl; [|done].
    rewrite cached_store_item_other by done.
    by rewrite init_state_cached.
Qed.

(** The computed-key wrappers change no entry but the one of [self] under
    the key that [key_func] returns for the arguments of the call; they
    change no entry at all when [key_func] raises. *)
Theorem one_entry_touched_computed key_func func self a s o k :
  reg_key o <> reg_key self \/ fst (key_func a (user s)) <> inl k ->
  cached (snd (computed key_func func self a s)) o k = cached s o k
  /\ cached (snd (remove_computed key_func func self a s)) o k = cached s o k
  /\ cached (snd (replace_computed key_func func self a s)) o k = cached s o k.
Proof.
  intros Hne.
  rewrite computed_run, remove_computed_run, replace_computed_run.
  destruct (key_func a (user s)) as [[kc|e] u0] eqn:Hk; simpl in *; [|done].
  assert (reg_key o <> reg_key self \/ k <> kc) as Hne'.
  { destruct Hne as [?|Hk']; [by left | right]. intros ->. by apply Hk'. }
  destruct (one_entry_touched_aux kc func self a
              (set_user u0 (emit (EvKey a) s)) o k Hne') as (H1 & H2 & H3).
  by rewrite H1, H2, H3.
Qed.

(** ** How often the wrapped method runs *)

Lemma invocations_static_step key func self a s :
  (exists l, invocations (log (snd (static key func self a s))) =
               invocations (log s) ++ l
             /\ (l = [] \/ l = [(self, a)]))
  /\ invocations (log (snd (remove_static key func self a s))) =
       invocations (log s) ++ [(self, a)]
  /\ invocations (log (snd (replace_static key func self a s))) =
       invocations (log s) ++ [(self, a)].
Proof.
  split; [|split].
  - destruct (cached s self key) as [w|] eqn:Hc.
    + exists []. rewrite (static_hit _ _ _ _ _ _ Hc). simpl.
      split; [by rewrite app_nil_r | by left].
    + exists [(self, a)]. split; [by apply static_miss_log | by right].
  - destruct (remove_static_spec key func self a s) as (Hl & _).
    rewrite Hl, !invocations_app. unfold init_events.
    destruct (registered s self), (cached s self key); simpl;
      by rewrite ?app_nil_r.
  - by destruct (replace_static_spec key func self a s) as (_ & Hl & _).
Qed.

(** A call of a wrapper invokes the wrapped method at most once, and only
    on the instance and the arguments of the call.  The invalidating and
    the replacing wrappers invoke it exactly once, unless the key function
    raised; the memoising wrappers invoke it or not. *)
Theorem at_most_one_invocation
    (wrapper : instance -> args -> M U E value) key key_func func self a s :
  In wrapper [static key func; remove_static key func; replace_static key func;
              computed key_func func; remove_computed key_func func;
              replace_computed key_func func] ->
  exists l, invocations (log (snd (wrapper self a s))) = invocations (log s) ++ l
            /\ (l = [] \/ l = [(self, a)]).
Proof.
  assert (forall k0 s0,
    (exists l, invocations (log (snd (static k0 func self a s0))) =
                 invocations (log s0) ++ l /\ (l = [] \/ l = [(self, a)]))
    /\ (exists l, invocations (log (snd (remove_static k0 func self a s0))) =
                    invocations (log s0) ++ l /\ (l = [] \/ l = [(self, a)]))
    /\ (exists l, invocations (log (snd (replace_static k0 func self a s0))) =
                    invocations (log s0) ++ l /\ (l = [] \/ l = [(self, a)])))
    as Hstatic.
  { intros k0 s0.
    destruct (invocations_static_step k0 func self a s0) as (H1 & H2 & H3).
    split; [done|]. split; exists [(self, a)]; split; auto. }
  assert (forall u0, invocations (log (set_user u0 (emit (EvKey a) s))) =
                     invocations (log s)) as Hkey.
  { intros u0. simpl. rewrite invocations_app. simpl. by rewrite app_nil_r. }
  intros [<-|[<-|[<-|[<-|[<-|[<-|[]]]]]]].
  - apply Hstatic.
  - apply Hstatic.
  - apply Hstatic.
  - rewrite computed_run.
    destruct (key_func a (user s)) as [[kc|e] u0].
    + rewrite <- (Hkey u0). apply Hstatic.
    + exists []. simpl. rewrite invocations_app. simpl. split; [done | by left].
  - rewrite remove_computed_run.
    destruct (key_func a (user s)) as [[kc|e] u0].
    + rewrite <- (Hkey u0). apply Hstatic.
    + exists []. simpl. rewrite invocations_app. simpl. split; [done | by left].
  - rewrite replace_computed_run.
    destruct (key_func a (user s)) as [[kc|e] u0].
    + rewrite <- (Hkey u0). apply Hstatic.
    + exists []. simpl. rewrite invocations_app. simpl. split; [done | by left].
Qed.

(** ** Composing the operations *)

(** [raw_set] seeds the memoised lookups: after it, a method memoised under
    the same key, static or derived, returns the value set and is not
    invoked. *)
Theorem raw_set_seeds_lookup key_func func self key v a s :
  static key func self a (snd (raw_set (E:=E) self key v s)) =
    (Ok v, snd (raw_set (E:=E) self key v s))
  /\ (forall u, key_func a (user s) = (inl key, u) ->
        fst (computed key_func func self a (snd (raw_set (E:=E) self key v s))) =
          Ok v
        /\ invocations
             (log (snd (computed key_func func self a
                          (snd (raw_set (E:=E) self key v s))))) =
           invocations (log s)).
Proof.
  assert (cached (snd (raw_set (E:=E) self key v s)) self key = Some v) as Hc.
  { rewrite raw_set_run. apply cached_store_item_same. }
  assert (user (snd (raw_set (E:=E) self key v s)) = user s) as Hu.
  { rewrite raw_set_run. simpl. apply init_state_user. }
  assert (invocations (log (snd (raw_set (E:=E) self key v s))) =
          invocations (log s)) as Hl.
  { rewrite raw_set_run. simpl. rewrite init_state_log, !invocations_app.
    unfold init_events. destruct (registered s self); simpl;
      by rewrite ?app_nil_r. }
  split; [by apply static_hit|].
  intros u Hk. rewrite computed_run, Hu, Hk.
  rewrite (static_hit key func self a (set_user u (emit (EvKey a) _)) v Hc).
  simpl. split; [done|].
  rewrite invocations_app, Hl. simpl. by rewrite app_nil_r.
Qed.

(** After a replacing wrapper has returned [v], a lookup memoised under the
    same key returns [v] and invokes nothing. *)
Theorem replace_then_lookup_hits key func g self a a' s v u :
  func self a (user s) = (inl v, u) ->
  static key g self a' (snd (replace_static key func self a s)) =
    (Ok v, snd (replace_static key func self a s)).
Proof.
  intros Hf. apply static_hit.
  destruct (replace_static_spec key func self a s) as (_ & _ & Hst).
  by destruct (Hst v u Hf).
Qed.

(** Entries belong to an instance and a key, not to a method: of two
    methods memoised under one key on one instance, the one called second
    returns what the first one computed and is never invoked. *)
Theorem methods_share_keys key func g self a a' s v u :
  cached s self key = None ->
  func self a (user s) = (inl v, u) ->
  static key g self a' (snd (static key func self a s)) =
    (Ok v, snd (static key func self a s))
  /\ invocations (log (snd (static key func self a s))) =
       invocations (log s) ++ [(self, a)].
Proof.
  intros Hc Hf.
  destruct (static_miss_ok key func self a s v u Hc Hf) as (_ & Hs & _).
  split; [by apply static_hit | by apply static_miss_log].
Qed.


(** Exceptions are not memoised: after a memoised call whose computation
    raised, the next call invokes the computation again and yields its new
    outcome. *)
Theorem failed_call_is_retried key func self a a' s e u :
  cached s self key = None ->
  func self a (user s) = (inr e, u) ->
  fst (static key func self a s) = Raise (UserError e)
  /\ fst (static key func self a' (snd (static key func self a s))) =
       user_outcome (func self a' u)
  /\ invocations
       (log (snd (static key func self a' (snd (static key func self a s))))) =
     invocations (log s) ++ [(self, a); (self, a')].
Proof.
  intros Hc Hf.
  destruct (static_failure key func self a s e u Hc Hf) as (Hr & Hsame & Hu).
  pose proof (static_miss_log key func self a s Hc) as Hl.
  assert (cached (snd (static key func self a s)) self key = None) as Hc1.
  { by rewrite Hsame. }
  split; [done|]. split.
  - unfold static at 1, user_outcome. rewrite with_cache_get_run, Hc1, Hu.
    by destruct (func self a' u) as [[w|e'] u'].
  - rewrite (static_miss_log key func self a' _ Hc1), Hl.
    by rewrite <- app_assoc.
Qed.

(** A replacing wrapper whose computation raises leaves the registry as it
    was: an entry already stored under the key survives, and an instance
    not yet seen is not even registered. *)
Theorem failed_refresh_keeps_entry key key_func func self a s e u :
  (func self a (user s) = (inr e, u) ->
   fst (replace_static key func self a s) = Raise (UserError e)
   /\ caches (snd (replace_static key func self a s)) = caches s)
  /\ (forall kc u0,
        key_func a (user s) = (inl kc, u0) ->
        func self a u0 = (inr e, u) ->
        fst (replace_computed key_func func self a s) = Raise (UserError e)
        /\ caches (snd (replace_computed key_func func self a s)) = caches s).
Proof.
  split.
  - intros Hf. by rewrite replace_static_run, Hf.
  - intros kc u0 Hk Hf.
    rewrite replace_computed_run, Hk, replace_static_run. simpl.
    by rewrite Hf.
Qed.

(** An invalidating wrapper removes before it calls: when the computation
    raises, the exception reaches the caller and the entry is gone all the
    same, [raw_get] raising [KeyError] afterwards. *)
Theorem failed_invalidation_has_removed key key_func func self a s e u :
  (func self a (user s) = (inr e, u) ->
   fst (remove_static key func self a s) = Raise (UserError e)
   /\ fst (raw_get (E:=E) self key (snd (remove_static key func self a s))) =
        Raise (KeyError key))
  /\ (forall kc u0,
        key_func a (user s) = (inl kc, u0) ->
        func self a u0 = (inr e, u) ->
        fst (remove_computed key_func func self a s) = Raise (UserError e)
        /\ fst (raw_get (E:=E) self kc
                  (snd (remove_computed key_func func self a s))) =
             Raise (KeyError kc)).
Proof.
  assert (forall k0 s0, func self a (user s0) = (inr e, u) ->
    fst (remove_static k0 func self a s0) = Raise (UserError e)
    /\ fst (raw_get (E:=E) self k0 (snd (remove_static k0 func self a s0))) =
         Raise (KeyError k0)) as Hstatic.
  { intros k0 s0 Hf.
    destruct (remove_static_spec k0 func self a s0) as (_ & Hr & Hgone & _).
    split.
    - rewrite Hr. unfold user_outcome. by rewrite Hf.
    - by rewrite raw_get_run, Hgone. }
  split; [apply Hstatic|].
  intros kc u0 Hk Hf. rewrite remove_computed_run, Hk.
  by apply Hstatic.
Qed.

(** [raw_remove] invalidates like the invalidating wrappers do: the lookup
    memoised under the removed key invokes its computation again, stores
    and returns what it yields. *)
Theorem raw_remove_forces_recompute key func self a s :
  fst (static key func self a (snd (raw_remove (E:=E) self key s))) =
    user_outcome (func self a (user s))
  /\ invocations
       (log (snd (static key func self a (snd (raw_remove (E:=E) self key s))))) =
     invocations (log s) ++ [(self, a)]
  /\ (forall v u, func self a (user s) = (inl v, u) ->
        cached (snd (static key func self a (snd (raw_remove (E:=E) self key s))))
          self key = Some v).
Proof.
  pose proof (raw_remove_gone self key s) as Hgone.
  assert (user (snd (raw_remove (E:=E) self key s)) = user s) as Hu.
  { rewrite raw_remove_run. simpl. apply removed_user. }
  split; [|split].
  - unfold static, user_outcome. rewrite with_cache_get_run, Hgone, Hu.
    by destruct (func self a (user s)) as [[w|e] u].
  - rewrite (static_miss_log key func self a _ Hgone).
    rewrite raw_remove_run. simpl.
    destruct (cached s self key); simpl;
      rewrite init_state_log, !invocations_app; unfold init_events;
      destruct (registered s self); simpl; by rewrite ?app_nil_r.
  - intros v u Hf. rewrite <- Hu in Hf.
    by destruct (static_miss_ok key func self a _ v u Hgone Hf) as (_ & ? & _).
Qed.

(** Instances that compare equal are one key of the registry: what
    [raw_set] stored for one, [raw_get] returns for the other, and
    [raw_remove] on the other removes it for both. *)
Theorem equal_instances_raw_roundtrip (o1 o2 : instance) k v s :
  py_equal o1 o2 ->
  fst (raw_get (E:=E) o2 k (snd (raw_set (E:=E) o1 k v s))) = Ok v
  /\ fst (raw_get (E:=E) o1 k
            (snd (raw_remove (E:=E) o2 k (snd (raw_set (E:=E) o1 k v s))))) =
     Raise (KeyError k).
Proof.
  unfold py_equal. intros Heq.
  assert (forall s0 k0, cached s0 o2 k0 = cached s0 o1 k0) as Hsame.
  { intros s0 k0. unfold cached. by rewrite Heq. }
  split.
  - rewrite raw_get_run, Hsame, raw_set_run. simpl.
    by rewrite cached_store_item_same.
  - by rewrite raw_get_run, <- Hsame, raw_remove_gone.
Qed.

End Composition.

(** * The composition theorems on the sample programs *)

Lemma lazy_init_idempotent_witness :
  caches (snd (_lazy_init (E:=string) obj (fresh 0%nat))) =
    <[reg_key obj := ∅]> (caches (fresh 0%nat)).
Proof.
  destruct (lazy_init_idempotent (E:=string) obj (fresh 0%nat)) as (_ & _ & H).
  exact (H eq_refl).
Defined.

Lemma raw_set_remove_roundtrip_witness :
  fst (raw_get (E:=string) obj (VStr "y")
         (snd (raw_remove (E:=string) obj (VStr "y")
                 (snd (raw_set (E:=string) obj (VStr "y") (VInt 3) stale))))) =
    Raise (KeyError (VStr "y")).
Proof.
  exact (proj2 (raw_set_remove_roundtrip (E:=string) obj (VStr "y") (VInt 3)
                  stale eq_refl)).
Defined.

Lemma raw_get_registers_witness :
  fst (raw_get (E:=string) other_obj (VStr "x") stale) =
    Raise (KeyError (VStr "x"))
  /\ registered (snd (raw_get (E:=string) other_obj (VStr "x") stale))
       other_obj = true.
Proof.
  destruct (raw_get_registers (E:=string) other_obj (VStr "x") stale eq_refl)
    as (H1 & _ & H2).
  split; [exact H1 | exact H2].
Defined.

Lemma one_entry_touched_witness :
  cached (snd (raw_set (E:=string) other_obj (VStr "x") (VInt 9) stale))
    obj (VStr "x") = cached stale obj (VStr "x")
  /\ cached (snd (remove_static (VStr "x") counter obj no_args stale))
       obj (VInt 7) = cached stale obj (VInt 7).
Proof.
  split.
  - destruct (one_entry_touched other_obj (VStr "x") (VInt 9) counter no_args
                stale obj (VStr "x")) as (H & _).
    + left. discriminate.
    + exact H.
  - destruct (one_entry_touched obj (VStr "x") (VInt 9) counter no_args
                stale obj (VInt 7)) as (_ & _ & _ & _ & H & _).
    + right. discriminate.
    + exact H.
Defined.

Lemma one_entry_touched_computed_witness :
  cached (snd (remove_computed first_arg counter obj (args_of (VInt 7)) stale))
    obj (VStr "x") = cached stale obj (VStr "x")
  /\ cached (snd (replace_computed first_arg counter obj no_args stale))
       obj (VInt 7) = cached stale obj (VInt 7).
Proof.
  split.
  - destruct (one_entry_touched_computed first_arg counter obj
                (args_of (VInt 7)) stale obj (VStr "x")) as (_ & H & _).
    + right. discriminate.
    + exact H.
  - destruct (one_entry_touched_computed first_arg counter obj no_args
                stale obj (VInt 7)) as (_ & _ & H).
    + right. discriminate.
    + exact H.
Defined.

Lemma at_most_one_invocation_witness :
  exists l,
    invocations (log (snd (replace_computed first_arg counter obj
                             (args_of (VInt 7)) stale))) =
      invocations (log stale) ++ l
    /\ (l = [] \/ l = [(obj, args_of (VInt 7))]).
Proof.
  apply (at_most_one_invocation (replace_computed first_arg counter)
           (VStr "x") first_arg counter obj (args_of (VInt 7)) stale).
  do 5 right. left. reflexivity.
Defined.

Lemma raw_set_seeds_lookup_witness :
  fst (computed first_arg counter obj (args_of (VInt 8))
         (snd (raw_set (E:=string) obj (VInt 8) (VStr "seed") (fresh 0%nat)))) =
    Ok (VStr "seed").
Proof.
  destruct (raw_set_seeds_lookup first_arg counter obj (VInt 8) (VStr "seed")
              (args_of (VInt 8)) (fresh 0%nat)) as (_ & H).
  exact (proj1 (H 0%nat eq_refl)).
Defined.

Lemma replace_then_lookup_hits_witness :
  static (VStr "x") failing obj no_args
    (snd (replace_static (VStr "x") counter obj no_args stale)) =
  (Ok (VInt 1), snd (replace_static (VStr "x") counter obj no_args stale)).
Proof.
  exact (replace_then_lookup_hits (VStr "x") counter failing obj no_args
           no_args stale (VInt 1) 1%nat eq_refl).
Defined.

Lemma methods_share_keys_witness :
  static (VStr "x") returns_none obj no_args
    (snd (static (VStr "x") counter obj no_args (fresh 0%nat))) =
  (Ok (VInt 1), snd (static (VStr "x") counter obj no_args (fresh 0%nat))).
Proof.
  exact (proj1 (methods_share_keys (VStr "x") counter returns_none obj no_args
                  no_args (fresh 0%nat) (VInt 1) 1%nat eq_refl eq_refl)).
Defined.



Lemma failed_call_is_retried_witness :
  fst (static (VStr "x") flaky obj no_args (fresh 0%nat)) =
    Raise (UserError "boom"%string)
  /\ fst (static (VStr "x") flaky obj no_args
            (snd (static (VStr "x") flaky obj no_args (fresh 0%nat)))) =
     user_outcome (flaky obj no_args 1%nat).
Proof.
  destruct (failed_call_is_retried (VStr "x") flaky obj no_args no_args
              (fresh 0%nat) "boom"%string 1%nat eq_refl eq_refl)
    as (H1 & H2 & _).
  split; [exact H1 | exact H2].
Defined.

Lemma failed_refresh_keeps_entry_witness :
  caches (snd (replace_static (VStr "x") failing obj no_args stale)) =
    caches stale
  /\ caches (snd (replace_computed first_arg failing obj (args_of (VInt 7))
                    stale)) = caches stale.
Proof.
  destruct (failed_refresh_keeps_entry (VStr "x") first_arg failing obj
              (args_of (VInt 7)) stale "boom"%string 1%nat) as [H1 H2].
  split.
  - exact (proj2 (H1 eq_refl)).
  - exact (proj2 (H2 (VInt 7) 0%nat eq_refl eq_refl)).
Defined.

Lemma failed_invalidation_has_removed_witness :
  fst (raw_get (E:=string) obj (VStr "x")
         (snd (remove_static (VStr "x") failing obj (args_of (VInt 7)) stale))) =
    Raise (KeyError (VStr "x"))
  /\ fst (raw_get (E:=string) obj (VInt 7)
            (snd (remove_computed first_arg failing obj (args_of (VInt 7))
                    stale))) =
     Raise (KeyError (VInt 7)).
Proof.
  destruct (failed_invalidation_has_removed (VStr "x") first_arg failing obj
              (args_of (VInt 7)) stale "boom"%string 1%nat) as [H1 H2].
  split.
  - exact (proj2 (H1 eq_refl)).
  - exact (proj2 (H2 (VInt 7) 0%nat eq_refl eq_refl)).
Defined.

Lemma equal_instances_raw_roundtrip_witness :
  fst (raw_get (E:=string) point_b (VStr "x")
         (snd (raw_set (E:=string) point_a (VStr "x") (VInt 1) (fresh 0%nat)))) =
    Ok (VInt 1).
Proof.
  exact (proj1 (equal_instances_raw_roundtrip (E:=string) point_a point_b
                  (VStr "x") (VInt 1) (fresh 0%nat) eq_refl)).
Defined.

Lemma raw_remove_forces_recompute_witness :
  fst (static (VStr "x") counter obj no_args
         (snd (raw_remove (E:=string) obj (VStr "x") stale))) = Ok (VInt 1)
  /\ cached (snd (static (VStr "x") counter obj no_args
                    (snd (raw_remove (E:=string) obj (VStr "x") stale))))
       obj (VStr "x") = Some (VInt 1).
Proof.
  destruct (raw_remove_forces_recompute (VStr "x") counter obj no_args stale)
    as (H1 & _ & H2).
  split; [exact H1 | exact (H2 (VInt 1) 1%nat eq_refl)].
Defined.
